(** * mediathekviewweb: selector matching, query construction and the
      filmlist manager

    The development follows the sources:

    - [Regex] and [ChannelSegmentConverter]: the selector pattern
      [SELECTOR_REGEX] of the Channel segment converter and its
      [textToQuery];
    - [Query]: the query AST and the text query builder the converter uses;
    - [Compiler]: the query compiler described by the specification;
    - [FilmlistManager]: [compareTime], [enqueueMissingFilmlists] and
      [enqueueFilmlist] of [FilmlistManagerModule], as programs over the
      calls they make to their collaborators. *)

From Stdlib Require Import Bool Arith ZArith List Ascii String Lia.
Import ListNotations.

Set Implicit Arguments.
Set Warnings "-register-all".

Local Open Scope string_scope.

(** ** Regular expressions, as ECMAScript matches them *)

Module Regex.

(** The fragment of the pattern syntax that [SELECTOR_REGEX] uses:
    literal characters, sequencing, the disjunction [|], the greedy
    quantifier [?] over a non-capturing group, and the assertions [^]
    and [$] (neither the [m] nor the [i] flag is set). *)
Inductive regex : Type :=
| Empty
| Char (c : ascii)
| Seq (r1 r2 : regex)
| Alt (r1 r2 : regex)
| Opt (r : regex)
| AssertStart
| AssertEnd.

(** A continuation receives the index reached and the input still to read. *)
Definition cont : Type := nat -> string -> bool.

(** The backtracking matcher in continuation-passing style: [i] is the
    index of the next character, [s] the input from that index on.  As
    the ECMAScript RepeatMatcher does, [Opt] refuses an iteration that
    consumed nothing, and tries the iteration before skipping it. *)
Fixpoint m (r : regex) (i : nat) (s : string) (k : cont) : bool :=
  match r with
  | Empty => k i s
  | Char c =>
      match s with
      | EmptyString => false
      | String a s' => if Ascii.eqb a c then k (S i) s' else false
      end
  | Seq r1 r2 => m r1 i s (fun i' s' => m r2 i' s' k)
  | Alt r1 r2 => m r1 i s k || m r2 i s k
  | Opt r1 =>
      m r1 i s (fun i' s' => if Nat.eqb i' i then false else k i' s')
      || k i s
  | AssertStart => if Nat.eqb i 0 then k i s else false
  | AssertEnd =>
      match s with
      | EmptyString => k i s
      | String _ _ => false
      end
  end.

(** [RegExp.prototype.test] without the [g] and [y] flags: a match is
    looked for at every start index, from [lastIndex = 0] on. *)
Fixpoint exec_from (r : regex) (i : nat) (s : string) : bool :=
  m r i s (fun _ _ => true)
  || match s with
     | EmptyString => false
     | String _ s' => exec_from r (S i) s'
     end.

Definition test (r : regex) (s : string) : bool := exec_from r 0 s.

(** The pattern [c1(?:c2(?:...(?:cn)?...)?)?] for the word [c1 c2 ... cn]. *)
Fixpoint abbrev (c : ascii) (w : string) : regex :=
  match w with
  | EmptyString => Char c
  | String c' w' => Seq (Char c) (Opt (abbrev c' w'))
  end.

End Regex.

(** ** The query AST and its text builder *)

Module Query.

(** Modelled from the spec: [Field] of [models], which is not among the
    sources, with the attributes section 3 lists; the converter names
    [Field.Channel]. *)
Inductive Field : Type :=
| Channel | Topic | Title | Description | Duration | Timestamp.

(** Modelled from the spec: [Operator] of [search-engine/query] (section
    3); the converter names [Operator.And]. *)
Inductive Operator : Type := And | Or.

(** Modelled from the spec: [QueryBody] of [search-engine/query] (section
    3): a text match over fields, a range over one field, or a boolean
    combination. *)
Inductive QueryBody : Type :=
| TextMatch (fields : list Field) (text : string) (operator : Operator)
| Range (field : Field) (min max : option Z)
| BoolQuery (must mustNot should : list QueryBody).

(** The number of nodes of a query. *)
Fixpoint size (q : QueryBody) : nat :=
  match q with
  | TextMatch _ _ _ => 1
  | Range _ _ _ => 1
  | BoolQuery must mustNot should =>
      S (list_sum (map size must) + list_sum (map size mustNot)
         + list_sum (map size should))
  end.

(** Modelled from the spec: [TextQueryBuilder] of
    [search-engine/query/builder], which is not among the sources.  It is
    the fluent helper of section 2 that assembles a text-match node from
    fields, a text and a join operator, and validates that the required
    parts are there before it finalises. *)
Record TextQueryBuilder : Type := mkTextQueryBuilder {
  b_fields : list Field;
  b_text : option string;
  b_operator : option Operator
}.

Definition newTextQueryBuilder : TextQueryBuilder :=
  mkTextQueryBuilder [] None None.

Definition fields (fs : list Field) (b : TextQueryBuilder) : TextQueryBuilder :=
  mkTextQueryBuilder fs (b_text b) (b_operator b).

Definition text (t : string) (b : TextQueryBuilder) : TextQueryBuilder :=
  mkTextQueryBuilder (b_fields b) (Some t) (b_operator b).

Definition operator (o : Operator) (b : TextQueryBuilder) : TextQueryBuilder :=
  mkTextQueryBuilder (b_fields b) (b_text b) (Some o).

(** [build] answers [None] where the builder throws. *)
Definition build (b : TextQueryBuilder) : option QueryBody :=
  match b_fields b, b_text b, b_operator b with
  | f :: fs, Some t, Some o => Some (TextMatch (f :: fs) t o)
  | _, _, _ => None
  end.

End Query.

(** ** The Channel segment converter *)

Module ChannelSegmentConverter.
Import Regex Query.

Definition FIELD : Field := Channel.

(** [/^(?:c(?:h(?:a(?:n(?:n(?:e(?:l)?)?)?)?)?)?|s(?:e(?:n(?:d(?:e(?:r)?)?)?)?)?|!)$/u].
    Tokens are strings of 8-bit characters; the pattern has ASCII
    literals only, so the [u] flag makes no difference on them. *)
Definition SELECTOR_REGEX : regex :=
  Seq AssertStart
    (Seq
       (Alt
          (Seq (Char "c") (Opt (Seq (Char "h") (Opt (Seq (Char "a")
            (Opt (Seq (Char "n") (Opt (Seq (Char "n") (Opt (Seq (Char "e")
              (Opt (Char "l")))))))))))))
          (Alt
             (Seq (Char "s") (Opt (Seq (Char "e") (Opt (Seq (Char "n")
               (Opt (Seq (Char "d") (Opt (Seq (Char "e")
                 (Opt (Char "r")))))))))))
             (Char "!")))
       AssertEnd).

(** The selector rule the converter hands to its base class:
    [SELECTOR_REGEX.test(token)]. *)
Definition claimsSelector (token : string) : bool :=
  test SELECTOR_REGEX token.

(** [textToQuery]: the builder chain
    [.fields(FIELD).text(text).operator(Operator.And).build()]. *)
Definition textToQuery (t : string) : option QueryBody :=
  build (operator And (text t (fields [FIELD] newTextQueryBuilder))).

End ChannelSegmentConverter.

(** ** Words of the selector claims *)

Module Selector.

(** [t] is a non-empty prefix of [name]. *)
Definition nonEmptyPrefix (t name : string) : bool :=
  negb (t =? "") && String.prefix t name.

(** ASCII lower-casing, and tokens that differ in letter case only. *)
Definition lowerChar (c : ascii) : ascii :=
  let n := nat_of_ascii c in
  if (65 <=? n)%nat && (n <=? 90)%nat then ascii_of_nat (n + 32) else c.

Fixpoint toLowerCase (s : string) : string :=
  match s with
  | EmptyString => EmptyString
  | String c s' => String (lowerChar c) (toLowerCase s')
  end.

Definition caseVariant (t t' : string) : bool :=
  toLowerCase t =? toLowerCase t'.

End Selector.

(** ** The query compiler *)

Module Compiler.
Import Query.

(** Modelled from the spec: the segment, the converter table and the
    compiler of sections 3, 4.2 and 4.4 ([segment], [segment-converter],
    the selector base class and the parser are not among the sources). *)
Record Segment : Type := mkSegment {
  rawText : string;
  selectorToken : option string;
  valueText : string;
  negated : bool
}.

(** Modelled from the spec: the error taxonomy of section 7. *)
Inductive CompileError : Type :=
| TokenizeError
| UnknownSelectorError
| ConversionError (field : Field) (raw : string).

(** A compilation step either succeeds or fails with one of the errors. *)
Inductive Result (A : Type) : Type :=
| Success (a : A)
| Failure (e : CompileError).
Arguments Failure {A} e.

(** Modelled from the spec: a segment converter as data (section 9): the
    field, the claim over a segment and the conversion, which answers
    [None] where it fails with a ConversionError. *)
Record SegmentConverter : Type := mkSegmentConverter {
  field : Field;
  claims : Segment -> bool;
  convert : Segment -> option QueryBody
}.

(** Modelled from the spec: what step 2 settles for a segment, the
    converter that claimed it or the default free-text conversion. *)
Inductive Resolution : Type :=
| Claimed (c : SegmentConverter)
| Default.

(** Modelled from the spec: the selector token is present and non-empty. *)
Definition hasSelector (seg : Segment) : bool :=
  match selectorToken seg with
  | Some t => negb (t =? "")
  | None => false
  end.

(** Modelled from the spec: step 2 of section 4.4 for one segment.  The
    first converter in registration order that claims wins; an unclaimed
    segment with a non-empty selector is an error, any other unclaimed
    segment is free text (section 4.1: an empty selector is no selector). *)
Definition resolve (convs : list SegmentConverter) (seg : Segment)
  : Result Resolution :=
  match find (fun c => claims c seg) convs with
  | Some c => Success (Claimed c)
  | None => if hasSelector seg then Failure UnknownSelectorError
            else Success Default
  end.

(** Modelled from the spec: step 3 for one segment. *)
Definition convertResolved (defaultFields : list Field) (seg : Segment)
  (r : Resolution) : Result QueryBody :=
  match r with
  | Claimed c =>
      match convert c seg with
      | Some q => Success q
      | None => Failure (ConversionError (field c) (rawText seg))
      end
  | Default => Success (TextMatch defaultFields (valueText seg) And)
  end.

(** Modelled from the spec: step 4, the central negation wrapper. *)
Definition wrapNegated (seg : Segment) (q : QueryBody) : QueryBody :=
  if negated seg then BoolQuery [] [q] [] else q.

(** Modelled from the spec: step 4 over the segments and their nodes,
    each node with its segment's negation flag. *)
Definition wrapped (nodes : list (Segment * QueryBody))
  : list (bool * QueryBody) :=
  map (fun sn => (negated (fst sn), wrapNegated (fst sn) (snd sn))) nodes.

(** Modelled from the spec: step 3 on a segment paired with what step 2
    settled for it. *)
Definition convertPair (defaultFields : list Field)
  (sr : Segment * Resolution) : Result QueryBody :=
  convertResolved defaultFields (fst sr) (snd sr).

(** Run [f] over a list in order and stop at the first failure. *)
Fixpoint traverse {A B : Type} (f : A -> Result B) (l : list A)
  : Result (list B) :=
  match l with
  | [] => Success []
  | a :: l' =>
      match f a with
      | Failure e => Failure e
      | Success b =>
          match traverse f l' with
          | Failure e => Failure e
          | Success bs => Success (b :: bs)
          end
      end
  end.

(** The nodes a negation wrapper of step 4 holds. *)
Definition negatedNodes (q : QueryBody) : list QueryBody :=
  match q with
  | BoolQuery _ mustNot _ => mustNot
  | _ => []
  end.

(** Modelled from the spec: step 5.  [nodes] pairs each segment's
    negation flag with its node after step 4; as in scenario 4 of section
    8, [mustNot] lists the nodes the wrappers hold. *)
Definition fold (nodes : list (bool * QueryBody)) : QueryBody :=
  let must := map snd (filter (fun n => negb (fst n)) nodes) in
  let mustNot := flat_map (fun n => negatedNodes (snd n))
                   (filter (fun n => fst n) nodes) in
  match must, mustNot with
  | [q], [] => q
  | _, _ => BoolQuery must mustNot []
  end.

Section Compile.
(** Modelled from the spec: the tokenizer of section 4.3 is a
    collaborator of the compiler; it answers [None] for a
    TokenizeError. *)
Variable tokenize : string -> option (list Segment).
Variable registeredConverters : list SegmentConverter.
Variable defaultFields : list Field.

(** Modelled from the spec: steps 1 to 4 of section 4.4, each taken over
    all segments in input order before the next; the result is the
    per-segment nodes. *)
Definition perSegmentNodes (input : string)
  : Result (list (bool * QueryBody)) :=
  match tokenize input with
  | None => Failure TokenizeError
  | Some segments =>
      match traverse (resolve registeredConverters) segments with
      | Failure e => Failure e
      | Success resolutions =>
          match traverse (convertPair defaultFields)
                  (combine segments resolutions) with
          | Failure e => Failure e
          | Success nodes => Success (wrapped (combine segments nodes))
          end
      end
  end.

(** Modelled from the spec: [compile] of section 4.4. *)
Definition compile (input : string) : Result QueryBody :=
  match perSegmentNodes input with
  | Failure e => Failure e
  | Success nodes => Success (fold nodes)
  end.

(** *** The algorithm of section 4.4 as a relation

    The same steps, stated the way the specification words them: which
    outcomes a compilation of [input] may have. *)

(** None of the converters claims the segment. *)
Definition unclaimed (seg : Segment) (convs : list SegmentConverter) : Prop :=
  Forall (fun c => claims c seg = false) convs.

(** Modelled from the spec: step 2 for one segment. *)
Inductive Resolves (seg : Segment) : Result Resolution -> Prop :=
| Resolves_first : forall before c after,
    registeredConverters = (before ++ c :: after)%list ->
    unclaimed seg before ->
    claims c seg = true ->
    Resolves seg (Success (Claimed c))
| Resolves_unknown : forall t,
    unclaimed seg registeredConverters ->
    selectorToken seg = Some t ->
    t <> "" ->
    Resolves seg (Failure UnknownSelectorError)
| Resolves_empty_selector :
    unclaimed seg registeredConverters ->
    selectorToken seg = Some "" ->
    Resolves seg (Success Default)
| Resolves_no_selector :
    unclaimed seg registeredConverters ->
    selectorToken seg = None ->
    Resolves seg (Success Default).

(** Modelled from the spec: step 3 for one segment and what step 2
    settled for it. *)
Inductive Converts : Segment * Resolution -> Result QueryBody -> Prop :=
| Converts_claimed : forall seg c q,
    convert c seg = Some q ->
    Converts (seg, Claimed c) (Success q)
| Converts_error : forall seg c,
    convert c seg = None ->
    Converts (seg, Claimed c)
             (Failure (ConversionError (field c) (rawText seg)))
| Converts_default : forall seg,
    Converts (seg, Default)
             (Success (TextMatch defaultFields (valueText seg) And)).

(** Modelled from the spec: a step taken over the segments in input
    order; all succeed, or the first failure is the outcome. *)
Inductive InOrder {A B : Type} (step : A -> Result B -> Prop)
  : list A -> Result (list B) -> Prop :=
| InOrder_nil : InOrder step [] (Success [])
| InOrder_cons : forall a l b bs,
    step a (Success b) ->
    InOrder step l (Success bs) ->
    InOrder step (a :: l) (Success (b :: bs))
| InOrder_fails : forall a l e,
    step a (Failure e) ->
    InOrder step (a :: l) (Failure e)
| InOrder_fails_later : forall a l b e,
    step a (Success b) ->
    InOrder step l (Failure e) ->
    InOrder step (a :: l) (Failure e).

(** Modelled from the spec: step 5 over the segments and their converted
    nodes. *)
Inductive Folds (nodes : list (Segment * QueryBody)) : QueryBody -> Prop :=
| Folds_single : forall q,
    map snd (filter (fun n => negb (negated (fst n))) nodes) = [q] ->
    filter (fun n => negated (fst n)) nodes = [] ->
    Folds nodes q
| Folds_bool : forall must mustNot,
    map snd (filter (fun n => negb (negated (fst n))) nodes) = must ->
    map snd (filter (fun n => negated (fst n)) nodes) = mustNot ->
    ~ (List.length must = 1 /\ mustNot = []) ->
    Folds nodes (BoolQuery must mustNot []).

(** Modelled from the spec: the outcomes of [compile] on an input. *)
Inductive Compiles (input : string) : Result QueryBody -> Prop :=
| Compiles_tokenize_error :
    tokenize input = None ->
    Compiles input (Failure TokenizeError)
| Compiles_resolution_error : forall segments e,
    tokenize input = Some segments ->
    InOrder Resolves segments (Failure e) ->
    Compiles input (Failure e)
| Compiles_conversion_error : forall segments resolutions e,
    tokenize input = Some segments ->
    InOrder Resolves segments (Success resolutions) ->
    InOrder Converts (combine segments resolutions) (Failure e) ->
    Compiles input (Failure e)
| Compiles_success : forall segments resolutions nodes q,
    tokenize input = Some segments ->
    InOrder Resolves segments (Success resolutions) ->
    InOrder Converts (combine segments resolutions) (Success nodes) ->
    Folds (combine segments nodes) q ->
    Compiles input (Success q).
End Compile.

(** *** A registration to run the scenarios of section 8 *)

(** Modelled from the spec: the unquoted part of the tokenizer of
    section 4.3, with the separator [:] and the negation marker [-] of
    the scenarios; the specification does not name the quote and escape
    characters, so every token is taken as unquoted. *)
Fixpoint words (current : string) (input : string) : list string :=
  let flush := match current with EmptyString => [] | _ => [current] end in
  match input with
  | EmptyString => flush
  | String c rest =>
      if Ascii.eqb c " " then (flush ++ words "" rest)%list
      else words (current ++ String c "") rest
  end.

(** Split a token at the first separator. *)
Fixpoint splitAt (sep : ascii) (before : string) (token : string)
  : option (string * string) :=
  match token with
  | EmptyString => None
  | String c rest =>
      if Ascii.eqb c sep then Some (before, rest)
      else splitAt sep (before ++ String c "") rest
  end.

(** A token as a segment: a leading [-] negates, the first [:] separates
    the selector from the value. *)
Definition toSegment (token : string) : Segment :=
  let (neg, body) :=
    match token with
    | String "-" rest => (true, rest)
    | _ => (false, token)
    end in
  match splitAt ":" "" body with
  | Some (selector, value) => mkSegment token (Some selector) value neg
  | None => mkSegment token None body neg
  end.

(** The tokens of the input as segments, in input order. *)
Definition sampleTokenize (input : string) : option (list Segment) :=
  Some (map toSegment (words "" input)).

(** Modelled from the spec: the Channel converter as an entry of the
    table (section 4.2): it claims a segment by its selector rule on the
    segment's selector token and converts the value text. *)
Definition channelConverter : SegmentConverter :=
  {| field := ChannelSegmentConverter.FIELD;
     claims := fun seg =>
       match selectorToken seg with
       | Some t => ChannelSegmentConverter.claimsSelector t
       | None => false
       end;
     convert := fun seg => ChannelSegmentConverter.textToQuery (valueText seg) |}.

(** [compile] with the Channel converter registered and the default
    fields of scenario 1. *)
Definition sampleCompile : string -> Result QueryBody :=
  compile sampleTokenize [channelConverter] [Title; Description].

End Compiler.

(** ** Numbers *)

Module Binary64.

(** The numbers the filmlist manager computes with are timestamps and
    durations in milliseconds.  They are modelled as the integer-valued
    doubles, written as integers; an arithmetic operation gives the exact
    result rounded to the nearest double, ties to even.  Up to [2 ^ 53]
    in magnitude every integer is a double; from there on the doubles
    are [ulp] apart, with 53 significant bits.  Fractions, [NaN] and the
    overflow to [Infinity] are left out: timestamps and configured
    durations are whole and far below the largest double. *)
Definition round64 (z : Z) : Z :=
  let a := Z.abs z in
  if (a <? 9007199254740992)%Z then z
  else
    let ulp := (2 ^ (Z.log2 a - 52))%Z in
    let q := (a / ulp)%Z in
    let r := (a mod ulp)%Z in
    let q' :=
      if (2 * r <? ulp)%Z then q
      else if (ulp <? 2 * r)%Z then (q + 1)%Z
      else if Z.even q then q else (q + 1)%Z in
    (Z.sgn z * (q' * ulp))%Z.

(** [a - b] and [a * b] on numbers. *)
Definition sub (a b : Z) : Z := round64 (a - b).
Definition mul (a b : Z) : Z := round64 (a * b).
Arguments sub : simpl never.
Arguments mul : simpl never.

(** [Number.isSafeInteger]: magnitude at most [2 ^ 53 - 1]. *)
Definition isSafeInteger (z : Z) : Prop :=
  (- 9007199254740991 <= z <= 9007199254740991)%Z.

End Binary64.

(** ** The filmlist manager *)

Module FilmlistManager.

(** [keyof FilmlistManagerKeyValues]. *)
Inductive Key : Type := lastLatestCheck | lastArchiveCheck.

Definition KEY_VALUE_SCOPE : string := "filmlist-manager".

Section Module_.
(** The model types the module only passes along: the resource of a
    filmlist, of which [id] and [timestamp] are read, the metadata of
    an import, and the values a rejected promise carries. *)
Variable Resource : Type.
Variable resource_id : Resource -> string.
Variable resource_timestamp : Resource -> Z.
Variable FilmlistMetadata : Type.
Variable Exn : Type.

Record Filmlist : Type := mkFilmlist {
  filmlist_resource : Resource
}.

(** [FilmlistImportWithPartialId], as [enqueueFilmlist] builds it
    (without an id); [null] is [None]. *)
Record FilmlistImportWithPartialId : Type := mkFilmlistImport {
  resource : Resource;
  state : string;
  enqueueTimestamp : Z;
  filmlistMetadata : option FilmlistMetadata;
  importTimestamp : option Z;
  importDuration : option Z;
  entriesCount : option Z
}.

(** The entity [save] answers: the import with its id. *)
Record FilmlistImport : Type := mkSaved {
  id : string;
  saved : FilmlistImportWithPartialId
}.

Record FilmlistImportQueueItem : Type := mkQueueItem {
  filmlistImportId : string
}.

(** The calls the module makes to its collaborators: the key-value
    repository, the clock, the function [compareTime] guards, the
    cancellation token, the filmlist-import repository, the import
    queue, the logger and the filmlist provider. *)
Inductive Request : Type :=
| KvGet (scope : string) (key : Key) (defaultValue : Z)
| KvSet (scope : string) (key : Key) (value : Z)
| CurrentTimestamp
| CallFunc
| CancellationIsSet
| HasResource (resourceId : string)
| Save (filmlistImport : FilmlistImportWithPartialId)
| Enqueue (item : FilmlistImportQueueItem)
| LogVerbose (message : string)
| GetLatest
| GetArchive.

Definition Resp (r : Request) : Type :=
  match r with
  | KvGet _ _ _ => Z
  | KvSet _ _ _ => unit
  | CurrentTimestamp => Z
  | CallFunc => unit
  | CancellationIsSet => bool
  | HasResource _ => bool
  | Save _ => FilmlistImport
  | Enqueue _ => unit
  | LogVerbose _ => unit
  | GetLatest => list Filmlist
  | GetArchive => list Filmlist
  end.

(** An asynchronous computation: it returns, or awaits a call and goes
    on with its answer, or counts an enqueued filmlist
    ([this.enqueuedFilmlistsCount++]). *)
Inductive Prog (A : Type) : Type :=
| Ret (a : A)
| Do (r : Request) (k : Resp r -> Prog A)
| Count (k : Prog A).
Arguments Ret {A} a.
Arguments Do {A} r k.
Arguments Count {A} k.

Fixpoint bind {A B : Type} (p : Prog A) (f : A -> Prog B) : Prog B :=
  match p with
  | Ret a => f a
  | Do r k => Do r (fun x => bind (k x) f)
  | Count k => Count (bind k f)
  end.

Definition call (r : Request) : Prog (Resp r) := Do r (fun x => Ret x).

Notation "x <- p ;; q" := (bind p (fun x => q))
  (at level 61, p at next level, right associativity).
Notation "p ;; q" := (bind p (fun _ => q))
  (at level 61, right associativity).

(** *** [AsyncEnumerable]

    The enumerable of [@tstdl/base] is lazy: [forEach] pulls one item
    at a time through the stages before it, so the stages of one item
    run before the next item is looked at.  An enumerable is modelled
    by what it does with a consumer, which answers whether it wants
    more. *)
Definition AsyncEnumerable (T : Type) : Type :=
  (T -> Prog bool) -> Prog unit.

Fixpoint ofIterable {T : Type} (items : list T) : AsyncEnumerable T :=
  fun consume =>
    match items with
    | [] => Ret tt
    | x :: rest =>
        more <- consume x ;;
        if more : bool then ofIterable rest consume else Ret tt
    end.

(** [while]: an item is passed on first; when the stages after it are
    through with the item and want more, the predicate is asked, and the
    enumeration ends when it refuses. *)
Definition while_ {T : Type} (predicate : T -> Prog bool)
  (e : AsyncEnumerable T) : AsyncEnumerable T :=
  fun consume =>
    e (fun x => more <- consume x ;; if more : bool then predicate x else Ret false).

Definition filter_ {T : Type} (predicate : T -> Prog bool)
  (e : AsyncEnumerable T) : AsyncEnumerable T :=
  fun consume =>
    e (fun x => b <- predicate x ;; if b : bool then consume x else Ret true).

Definition forEach {T : Type} (e : AsyncEnumerable T)
  (func : T -> Prog unit) : Prog unit :=
  e (fun x => func x ;; Ret true).

(** *** The module's methods *)

Definition compareTime (key : Key) (interval : Z) (func : Prog unit)
  : Prog unit :=
  lastCheck <- call (KvGet KEY_VALUE_SCOPE key 0) ;;
  now <- call CurrentTimestamp ;;
  let difference := Binary64.sub now lastCheck in
  if (interval <=? difference)%Z then
    func ;;
    call (KvSet KEY_VALUE_SCOPE key now)
  else Ret tt.

Definition enqueueFilmlist (filmlist : Filmlist) : Prog unit :=
  now <- call CurrentTimestamp ;;
  let filmlistImport :=
    {| resource := filmlist_resource filmlist;
       state := "pending";
       enqueueTimestamp := now;
       filmlistMetadata := None;
       importTimestamp := None;
       importDuration := None;
       entriesCount := None |} in
  insertedFilmlistImport <- call (Save filmlistImport) ;;
  let filmlistImportQueueItem :=
    {| filmlistImportId := id insertedFilmlistImport |} in
  call (Enqueue filmlistImportQueueItem) ;;
  Count (Ret tt).

Definition enqueueMissingFilmlists (filmlists : list Filmlist)
  (minimumTimestamp : Z) : Prog unit :=
  let filmlistsEnumerable := ofIterable filmlists in
  forEach
    (filter_
       (fun filmlist =>
          has <- call (HasResource (resource_id (filmlist_resource filmlist))) ;;
          Ret (negb has))
       (filter_
          (fun filmlist =>
             Ret (minimumTimestamp <=? resource_timestamp (filmlist_resource filmlist))%Z)
          (while_
             (fun _ => isSet <- call CancellationIsSet ;; Ret (negb isSet))
             filmlistsEnumerable)))
    enqueueFilmlist.

Section Config.
(** [config.importer], which is not among the sources. *)
Variable latestCheckIntervalMinutes : Z.
Variable archiveCheckIntervalMinutes : Z.
Variable archiveRange : Z.

Definition LATEST_CHECK_INTERVAL : Z :=
  Binary64.mul (Binary64.mul latestCheckIntervalMinutes 60) 1000.
Definition ARCHIVE_CHECK_INTERVAL : Z :=
  Binary64.mul (Binary64.mul archiveCheckIntervalMinutes 60) 1000.
Definition MAX_AGE_DAYS : Z := archiveRange.
Definition MAX_AGE_MILLISECONDS : Z :=
  Binary64.mul (Binary64.mul (Binary64.mul (Binary64.mul MAX_AGE_DAYS 24) 60) 60)
               1000.

Definition checkLatest : Prog unit :=
  call (LogVerbose "checking for new current-filmlist") ;;
  filmlists <- call GetLatest ;;
  enqueueMissingFilmlists filmlists 0.

Definition checkArchive : Prog unit :=
  call (LogVerbose "checking for new archive-filmlist") ;;
  now <- call CurrentTimestamp ;;
  let minimumTimestamp := Binary64.sub now MAX_AGE_MILLISECONDS in
  archive <- call GetArchive ;;
  enqueueMissingFilmlists archive minimumTimestamp.

Definition check : Prog unit :=
  compareTime lastLatestCheck LATEST_CHECK_INTERVAL checkLatest ;;
  compareTime lastArchiveCheck ARCHIVE_CHECK_INTERVAL checkArchive.
End Config.

(** *** Running a computation against its collaborators *)

Inductive Outcome (A : Type) : Type :=
| Ok (a : A)
| Throw (e : Exn).
Arguments Throw {A} e.

(** What a call answered, for the log. *)
Inductive Answer : Type :=
| AUnit
| ANumber (z : Z)
| ABool (b : bool)
| AImport (i : FilmlistImport)
| AFilmlists (l : list Filmlist).

Definition answer (r : Request) : Resp r -> Answer :=
  match r with
  | KvGet _ _ _ => ANumber
  | KvSet _ _ _ => fun _ => AUnit
  | CurrentTimestamp => ANumber
  | CallFunc => fun _ => AUnit
  | CancellationIsSet => ABool
  | HasResource _ => ABool
  | Save _ => AImport
  | Enqueue _ => fun _ => AUnit
  | LogVerbose _ => fun _ => AUnit
  | GetLatest => AFilmlists
  | GetArchive => AFilmlists
  end.

Inductive Event : Type :=
| Returned (r : Request) (a : Answer)
| Rejected (r : Request) (e : Exn)
| Counted.

Definition requestOf (ev : Event) : option Request :=
  match ev with
  | Returned r _ => Some r
  | Rejected r _ => Some r
  | Counted => None
  end.


(** The import [enqueueFilmlist] saves for a resource at a time. *)
Definition pendingImport (r : Resource) (now : Z)
  : FilmlistImportWithPartialId :=
  {| resource := r;
     state := "pending";
     enqueueTimestamp := now;
     filmlistMetadata := None;
     importTimestamp := None;
     importDuration := None;
     entriesCount := None |}.

(** Every enqueue call of a trace comes right after the repository was
    asked for the resource of a filmlist of [filmlists] that is not
    older than [minimumTimestamp] and answered that it has none, the
    clock was read, and the pending import of that resource was saved;
    the item names the id of the saved import. *)
Definition enqueuesJustified (filmlists : list Filmlist)
  (minimumTimestamp : Z) (tr : list Event) : Prop :=
  forall pre ev post item,
    tr = (pre ++ ev :: post)%list ->
    requestOf ev = Some (Enqueue item) ->
    exists pre' filmlist now inserted,
      pre = (pre' ++
             [Returned (HasResource (resource_id (filmlist_resource filmlist)))
                       (ABool false);
              Returned CurrentTimestamp (ANumber now);
              Returned (Save (pendingImport (filmlist_resource filmlist) now))
                       (AImport inserted)])%list
      /\ In filmlist filmlists
      /\ (minimumTimestamp <= resource_timestamp (filmlist_resource filmlist))%Z
      /\ filmlistImportId item = id inserted.

Section Run.
(** The collaborators: a state [World] and, for every call, its
    outcome and the state it leaves. *)
Variable World : Type.
Variable handle : forall r : Request, World -> Outcome (Resp r) * World.

Record Run (A : Type) : Type := mkRun {
  outcome : Outcome A;
  world : World;
  trace : list Event
}.

(** An awaited call that rejects ends the computation: the module
    catches nothing. *)
Fixpoint run {A : Type} (p : Prog A) (w : World) : Run A :=
  match p with
  | Ret a => mkRun (Ok a) w []
  | Do r k =>
      match handle r w with
      | (Ok x, w') =>
          let rest := run (k x) w' in
          mkRun (outcome rest) (world rest)
                (Returned r (answer r x) :: trace rest)
      | (Throw e, w') => mkRun (Throw e) w' [Rejected r e]
      end
  | Count k =>
      let rest := run k w in
      mkRun (outcome rest) (world rest) (Counted :: trace rest)
  end.
End Run.
End Module_.

Arguments KvGet {Resource FilmlistMetadata} scope key defaultValue.
Arguments KvSet {Resource FilmlistMetadata} scope key value.
Arguments CurrentTimestamp {Resource FilmlistMetadata}.
Arguments CallFunc {Resource FilmlistMetadata}.
Arguments CancellationIsSet {Resource FilmlistMetadata}.
Arguments HasResource {Resource FilmlistMetadata} resourceId.
Arguments Enqueue {Resource FilmlistMetadata} item.
Arguments LogVerbose {Resource FilmlistMetadata} message.
Arguments GetLatest {Resource FilmlistMetadata}.
Arguments GetArchive {Resource FilmlistMetadata}.
Arguments Ret {Resource FilmlistMetadata A} a.
Arguments Ok {Exn A} a.
Arguments Throw {Exn A} e.
Arguments AUnit {Resource FilmlistMetadata}.
Arguments ANumber {Resource FilmlistMetadata} z.
Arguments ABool {Resource FilmlistMetadata} b.
Arguments Counted {Resource FilmlistMetadata Exn}.
Arguments Returned {Resource FilmlistMetadata Exn} r a.
Arguments pendingImport {Resource FilmlistMetadata} r now.
Arguments enqueuesJustified {Resource} resource_id resource_timestamp
  {FilmlistMetadata Exn} filmlists minimumTimestamp tr.
Arguments enqueueFilmlist {Resource FilmlistMetadata} filmlist.
Arguments enqueueMissingFilmlists {Resource} resource_id resource_timestamp
  {FilmlistMetadata} filmlists minimumTimestamp.
Arguments checkLatest {Resource} resource_id resource_timestamp
  {FilmlistMetadata}.
Arguments checkArchive {Resource} resource_id resource_timestamp
  {FilmlistMetadata} archiveRange.
Arguments check {Resource} resource_id resource_timestamp
  {FilmlistMetadata} latestCheckIntervalMinutes archiveCheckIntervalMinutes
  archiveRange.

End FilmlistManager.
(** ** In-memory collaborators, to run the filmlist manager *)

Module InMemory.
Import FilmlistManager.

(** A resource is an id and a timestamp; a rejection carries a message. *)
Definition Resource : Type := (string * Z)%type.
Definition resource_id (r : Resource) : string := fst r.
Definition resource_timestamp (r : Resource) : Z := snd r.

Definition Import_ : Type := FilmlistImport Resource unit.
Definition Item : Type := FilmlistImportQueueItem.
Definition Req : Type := Request Resource unit.

Record World : Type := mkWorld {
  keyValues : Key -> option Z;
  clock : Z;
  funcFails : bool;
  cancelled : bool;
  imports : list Import_;
  queue : list Item
}.

Definition Key_eqb (a b : Key) : bool :=
  match a, b with
  | lastLatestCheck, lastLatestCheck => true
  | lastArchiveCheck, lastArchiveCheck => true
  | _, _ => false
  end.

Definition hasResource (rid : string) (w : World) : bool :=
  existsb (fun i => resource_id (resource (saved i)) =? rid) (imports w).

(** The id of a saved import is derived from its resource. *)
Definition handle (r : Req) (w : World)
  : Outcome string (Resp r) * World :=
  match r return Outcome string (Resp r) * World with
  | KvGet _ key defaultValue =>
      (Ok match keyValues w key with Some v => v | None => defaultValue end, w)
  | KvSet _ key value =>
      (Ok tt,
       mkWorld (fun k => if Key_eqb k key then Some value else keyValues w k)
               (clock w) (funcFails w) (cancelled w) (imports w) (queue w))
  | CurrentTimestamp => (Ok (clock w), w)
  | CallFunc => (if funcFails w then Throw "check failed" else Ok tt, w)
  | CancellationIsSet => (Ok (cancelled w), w)
  | HasResource rid => (Ok (hasResource rid w), w)
  | Save filmlistImport =>
      let inserted :=
        mkSaved ("import:" ++ resource_id (resource filmlistImport))
                filmlistImport in
      (Ok inserted,
       mkWorld (keyValues w) (clock w) (funcFails w) (cancelled w)
               (imports w ++ [inserted])%list (queue w))
  | Enqueue item =>
      (Ok tt,
       mkWorld (keyValues w) (clock w) (funcFails w) (cancelled w)
               (imports w) (queue w ++ [item])%list)
  | LogVerbose _ => (Ok tt, w)
  | GetLatest => (Ok [], w)
  | GetArchive => (Ok [], w)
  end.

Definition emptyWorld : World :=
  mkWorld (fun _ => None) 1000 false false [] [].

Definition runIn {A : Type} (p : Prog Resource unit A) (w : World)
  : Run Resource unit string World A :=
  run handle p w.

Definition guarded : Prog Resource unit unit := call CallFunc.

End InMemory.

(** ** The tokens of a selector name *)

Module Abbreviations.

(** The non-empty prefixes of a word, shortest first. *)
Fixpoint nonEmptyPrefixes (w : string) : list string :=
  match w with
  | EmptyString => []
  | String c w' => String c "" :: map (String c) (nonEmptyPrefixes w')
  end.

End Abbreviations.

(** ** What a trace of the filmlist manager shows *)

Module Observations.
Import FilmlistManager.

(** A list taken out of another one in the same order. *)
Inductive Subsequence {A : Type} : list A -> list A -> Prop :=
| Subsequence_nil : Subsequence [] []
| Subsequence_skip : forall x l1 l2,
    Subsequence l1 l2 -> Subsequence l1 (x :: l2)
| Subsequence_take : forall x l1 l2,
    Subsequence l1 l2 -> Subsequence (x :: l1) (x :: l2).

(** The value of a numeric field of the module object: not assigned yet,
    not a number, or an integer. *)
Inductive JsNumber : Type :=
| JsUndefined
| JsNaN
| JsInteger (z : Z).

(** [x++] stores [ToNumber(x) + 1]; [undefined] converts to NaN. *)
Definition postIncrement (v : JsNumber) : JsNumber :=
  match v with
  | JsInteger z => JsInteger (z + 1)
  | JsNaN => JsNaN
  | JsUndefined => JsNaN
  end.

(** [enqueuedFilmlistsCount] after the constructor, which assigns the six
    collaborators and leaves the counter as declared. *)
Definition constructedEnqueuedFilmlistsCount : JsNumber := JsUndefined.

Section Events.
Variable Resource : Type.
Variable resource_id : Resource -> string.
Variable resource_timestamp : Resource -> Z.
Variable FilmlistMetadata : Type.
Variable Exn : Type.

Definition isCallFunc (ev : Event Resource FilmlistMetadata Exn) : bool :=
  match requestOf ev with
  | Some CallFunc => true
  | _ => false
  end.

Definition isCounted (ev : Event Resource FilmlistMetadata Exn) : bool :=
  match ev with
  | Counted => true
  | _ => false
  end.

(** An enqueue call that returned. *)
Definition isEnqueued (ev : Event Resource FilmlistMetadata Exn) : bool :=
  match ev with
  | Returned (Enqueue _) _ => true
  | _ => false
  end.

Definition isRejected (ev : Event Resource FilmlistMetadata Exn) : bool :=
  match ev with
  | Rejected _ _ => true
  | _ => false
  end.

(** The cancellation token was read and was set. *)
Definition isCancelObserved (ev : Event Resource FilmlistMetadata Exn) : bool :=
  match ev with
  | Returned CancellationIsSet (ABool true) => true
  | _ => false
  end.

(** Nothing was rejected and no cancellation was seen. *)
Definition undisturbed (tr : list (Event Resource FilmlistMetadata Exn)) : bool :=
  forallb (fun ev => negb (isRejected ev) && negb (isCancelObserved ev)) tr.

(** The resource ids the repository was asked about, in order. *)
Fixpoint queriedIds (tr : list (Event Resource FilmlistMetadata Exn))
  : list string :=
  match tr with
  | [] => []
  | ev :: tr' =>
      match requestOf ev with
      | Some (HasResource rid) => rid :: queriedIds tr'
      | _ => queriedIds tr'
      end
  end.

(** The resources of the imports whose save returned, in order. *)
Fixpoint savedResources (tr : list (Event Resource FilmlistMetadata Exn))
  : list Resource :=
  match tr with
  | [] => []
  | Returned (Save filmlistImport) _ :: tr' =>
      resource filmlistImport :: savedResources tr'
  | _ :: tr' => savedResources tr'
  end.

(** The filter on the resource timestamp in [enqueueMissingFilmlists]. *)
Definition newEnough (minimumTimestamp : Z) (filmlist : Filmlist Resource)
  : bool :=
  (minimumTimestamp <=? resource_timestamp (filmlist_resource filmlist))%Z.

(** [enqueuedFilmlistsCount] after the increments of a trace. *)
Fixpoint countAfter (v : JsNumber)
  (tr : list (Event Resource FilmlistMetadata Exn)) : JsNumber :=
  match tr with
  | [] => v
  | Counted :: tr' => countAfter (postIncrement v) tr'
  | _ :: tr' => countAfter v tr'
  end.

(** What [metrics.enqueuedFilmlistsCount.getValue()] answers after the
    module has gone through a trace. *)
Definition metricValue (tr : list (Event Resource FilmlistMetadata Exn))
  : JsNumber :=
  countAfter constructedEnqueuedFilmlistsCount tr.

(** What the stages after [while] do with one filmlist: the calls they
    make, and the error if one of the calls is rejected. *)
Inductive Stages (minimumTimestamp : Z) (fl : Filmlist Resource)
  : option Exn -> list (Event Resource FilmlistMetadata Exn) -> Prop :=
| Stages_too_old :
    newEnough minimumTimestamp fl = false ->
    Stages minimumTimestamp fl None []
| Stages_lookup_rejected : forall e,
    newEnough minimumTimestamp fl = true ->
    Stages minimumTimestamp fl (Some e)
      [Rejected (HasResource (resource_id (filmlist_resource fl))) e]
| Stages_known :
    newEnough minimumTimestamp fl = true ->
    Stages minimumTimestamp fl None
      [Returned (HasResource (resource_id (filmlist_resource fl)))
                (ABool true)]
| Stages_clock_rejected : forall e,
    newEnough minimumTimestamp fl = true ->
    Stages minimumTimestamp fl (Some e)
      [Returned (HasResource (resource_id (filmlist_resource fl)))
                (ABool false);
       Rejected CurrentTimestamp e]
| Stages_save_rejected : forall now e,
    newEnough minimumTimestamp fl = true ->
    Stages minimumTimestamp fl (Some e)
      [Returned (HasResource (resource_id (filmlist_resource fl)))
                (ABool false);
       Returned CurrentTimestamp (ANumber now);
       Rejected (Save (pendingImport (filmlist_resource fl) now)) e]
| Stages_enqueue_rejected : forall now inserted e,
    newEnough minimumTimestamp fl = true ->
    Stages minimumTimestamp fl (Some e)
      [Returned (HasResource (resource_id (filmlist_resource fl)))
                (ABool false);
       Returned CurrentTimestamp (ANumber now);
       Returned (Save (pendingImport (filmlist_resource fl) now))
                (AImport inserted);
       Rejected (Enqueue {| filmlistImportId := id inserted |}) e]
| Stages_enqueued : forall now inserted,
    newEnough minimumTimestamp fl = true ->
    Stages minimumTimestamp fl None
      [Returned (HasResource (resource_id (filmlist_resource fl)))
                (ABool false);
       Returned CurrentTimestamp (ANumber now);
       Returned (Save (pendingImport (filmlist_resource fl) now))
                (AImport inserted);
       Returned (Enqueue {| filmlistImportId := id inserted |}) AUnit;
       Counted].

(** The runs of [enqueueMissingFilmlists], filmlist by filmlist: the
    stages handle the first filmlist; if none of their calls is rejected
    the cancellation token is read, and the run goes on with the rest
    when the token is not set. *)
Inductive Blocks (minimumTimestamp : Z)
  : list (Filmlist Resource) -> Outcome Exn unit
    -> list (Event Resource FilmlistMetadata Exn) -> Prop :=
| Blocks_done :
    Blocks minimumTimestamp [] (Ok tt) []
| Blocks_rejected : forall fl fls e tr,
    Stages minimumTimestamp fl (Some e) tr ->
    Blocks minimumTimestamp (fl :: fls) (Throw e) tr
| Blocks_token_rejected : forall fl fls e tr,
    Stages minimumTimestamp fl None tr ->
    Blocks minimumTimestamp (fl :: fls) (Throw e)
      (tr ++ [Rejected CancellationIsSet e])
| Blocks_cancelled : forall fl fls tr,
    Stages minimumTimestamp fl None tr ->
    Blocks minimumTimestamp (fl :: fls) (Ok tt)
      (tr ++ [Returned CancellationIsSet (ABool true)])
| Blocks_next : forall fl fls tr o rest,
    Stages minimumTimestamp fl None tr ->
    Blocks minimumTimestamp fls o rest ->
    Blocks minimumTimestamp (fl :: fls) o
      (tr ++ Returned CancellationIsSet (ABool false) :: rest).
End Events.

Arguments isCallFunc {Resource FilmlistMetadata Exn} ev.
Arguments isCounted {Resource FilmlistMetadata Exn} ev.
Arguments isEnqueued {Resource FilmlistMetadata Exn} ev.
Arguments isRejected {Resource FilmlistMetadata Exn} ev.
Arguments isCancelObserved {Resource FilmlistMetadata Exn} ev.
Arguments undisturbed {Resource FilmlistMetadata Exn} tr.
Arguments queriedIds {Resource FilmlistMetadata Exn} tr.
Arguments savedResources {Resource FilmlistMetadata Exn} tr.
Arguments countAfter {Resource FilmlistMetadata Exn} v tr.
Arguments metricValue {Resource FilmlistMetadata Exn} tr.
Arguments Stages {Resource} resource_id resource_timestamp
  {FilmlistMetadata Exn} minimumTimestamp fl _ _.
Arguments Blocks {Resource} resource_id resource_timestamp
  {FilmlistMetadata Exn} minimumTimestamp _ _ _.

End Observations.

(** ** In-memory collaborators with a filmlist provider *)

Module InMemoryProvider.
Import FilmlistManager InMemory.

(** The in-memory world together with what the provider lists, and
    whether the provider is out of order. *)
Record ProviderWorld : Type := mkProviderWorld {
  base : World;
  latestFilmlists : list (Filmlist Resource);
  archiveFilmlists : list (Filmlist Resource);
  providerFails : bool
}.

Definition onBase {X : Type} (pw : ProviderWorld)
  (answer : Outcome string X * World) : Outcome string X * ProviderWorld :=
  (fst answer,
   mkProviderWorld (snd answer) (latestFilmlists pw) (archiveFilmlists pw)
                   (providerFails pw)).

(** The provider answers from its lists; every other call goes to the
    in-memory collaborators. *)
Definition handleWithProvider (r : Req) (pw : ProviderWorld)
  : Outcome string (Resp r) * ProviderWorld :=
  match r return Outcome string (Resp r) * ProviderWorld with
  | GetLatest =>
      (if providerFails pw then Throw "provider unavailable"
       else Ok (latestFilmlists pw), pw)
  | GetArchive =>
      (if providerFails pw then Throw "provider unavailable"
       else Ok (archiveFilmlists pw), pw)
  | other => onBase pw (handle other (base pw))
  end.

Definition providing (latest archive : list (Filmlist Resource))
  : ProviderWorld :=
  mkProviderWorld emptyWorld latest archive false.

Definition outOfOrder : ProviderWorld :=
  mkProviderWorld emptyWorld [] [] true.

End InMemoryProvider.

(** * Properties *)

(** ** The selector pattern *)

Module RegexFacts.
Import Regex.

(** A pattern that starts with [^] matches at the first index only. *)
Lemma exec_from_anchored r i s :
  exec_from (Seq AssertStart r) (S i) s = false.
Proof.
  revert i; induction s as [|a s IH]; intro i; simpl.
  - reflexivity.
  - apply IH.
Qed.

Lemma test_anchored r s :
  test (Seq AssertStart (Seq r AssertEnd)) s
  = m r 0 s (fun _ rest => rest =? "").
Proof.
  unfold test.
  assert (E : forall k1 k2 : cont, (forall i x, k1 i x = k2 i x) ->
              forall i, m r i s k1 = m r i s k2).
  { revert s. induction r; intros s k1 k2 H i; simpl.
    - apply H.
    - destruct s as [|a s]; [reflexivity|]. destruct (Ascii.eqb a c); auto.
    - apply IHr1. intros; apply IHr2; assumption.
    - f_equal; auto.
    - f_equal; auto. apply IHr. intros i' x. destruct (Nat.eqb i' i); auto.
    - destruct (Nat.eqb i 0); auto.
    - destruct s; auto. }
  destruct s as [|a s]; simpl.
  - rewrite orb_false_r. apply E. intros i [|b x]; reflexivity.
  - rewrite exec_from_anchored, orb_false_r.
    apply E. intros i [|b x]; reflexivity.
Qed.

(** An abbreviation pattern consumes at least one character. *)
Lemma m_abbrev_progress w : forall c i s (k1 k2 : cont),
  (forall i' x, i < i' -> k1 i' x = k2 i' x) ->
  m (abbrev c w) i s k1 = m (abbrev c w) i s k2.
Proof.
  induction w as [|c' w IH]; intros c i s k1 k2 H; simpl.
  - destruct s as [|a s]; [reflexivity|].
    destruct (Ascii.eqb a c); [apply H; lia | reflexivity].
  - destruct s as [|a s]; [reflexivity|].
    destruct (Ascii.eqb a c); [|reflexivity].
    f_equal.
    + apply IH. intros i' x Hi.
      destruct (Nat.eqb i' (S i)); [reflexivity | apply H; lia].
    + apply H; lia.
Qed.

Lemma prefix_cons a s c w :
  String.prefix (String a s) (String c w) = Ascii.eqb a c && String.prefix s w.
Proof.
  simpl. destruct (ascii_dec a c) as [->|Hne].
  - now rewrite Ascii.eqb_refl.
  - apply Ascii.eqb_neq in Hne. now rewrite Hne.
Qed.

Lemma prefix_nil_l s : String.prefix "" s = true.
Proof. destruct s; reflexivity. Qed.

(** Anchored at the end, the abbreviation pattern of a word accepts the
    non-empty prefixes of the word. *)
Lemma m_abbrev_end w : forall c i s,
  m (abbrev c w) i s (fun _ rest => rest =? "")
  = Selector.nonEmptyPrefix s (String c w).
Proof.
  unfold Selector.nonEmptyPrefix.
  induction w as [|c' w IH]; intros c i s.
  - destruct s as [|a s]; [reflexivity|].
    rewrite prefix_cons. simpl m. simpl negb. rewrite andb_true_l.
    destruct (Ascii.eqb a c); [|reflexivity].
    destruct s; reflexivity.
  - destruct s as [|a s]; [reflexivity|].
    rewrite prefix_cons. simpl m. simpl negb. rewrite andb_true_l.
    destruct (Ascii.eqb a c); [|reflexivity].
    rewrite (@m_abbrev_progress w c' (S i) s _ (fun _ rest => rest =? "")).
    + rewrite IH, andb_true_l. destruct s as [|b s]; [reflexivity|].
      simpl negb. now rewrite orb_false_r.
    + intros i' x Hi. destruct (Nat.eqb_spec i' (S i)); [lia | reflexivity].
Qed.

End RegexFacts.

(** ** The Channel converter *)

Module ChannelFacts.
Import Regex Query ChannelSegmentConverter Selector RegexFacts.

Lemma SELECTOR_REGEX_abbrev :
  SELECTOR_REGEX
  = Seq AssertStart
      (Seq (Alt (abbrev "c" "hannel") (Alt (abbrev "s" "ender") (Char "!")))
           AssertEnd).
Proof. reflexivity. Qed.

Lemma m_Alt r1 r2 i s k : m (Alt r1 r2) i s k = m r1 i s k || m r2 i s k.
Proof. reflexivity. Qed.

Lemma m_bare c s :
  m (Char c) 0 s (fun _ rest => rest =? "") = (s =? String c "").
Proof.
  destruct s as [|a s]; [reflexivity|]. cbn [m String.eqb].
  destruct (Ascii.eqb a c); [|reflexivity]. destruct s; reflexivity.
Qed.

(** What the selector pattern accepts, in the words of the selector rule. *)
Lemma claimsSelector_rule t :
  claimsSelector t
  = nonEmptyPrefix t "channel" || nonEmptyPrefix t "sender" || (t =? "!").
Proof.
  unfold claimsSelector.
  rewrite SELECTOR_REGEX_abbrev, test_anchored, !m_Alt, !m_abbrev_end, m_bare.
  now rewrite orb_assoc.
Qed.

Lemma prefix_lower t : forall w,
  String.prefix t w = true -> toLowerCase w = w -> toLowerCase t = t.
Proof.
  induction t as [|a t IH]; intros w Hp Hw; [reflexivity|].
  destruct w as [|c w]; [discriminate|].
  rewrite prefix_cons in Hp. apply andb_prop in Hp as [Hac Hp].
  apply Ascii.eqb_eq in Hac. subst a.
  simpl in Hw. injection Hw as Hc Hw'.
  simpl. rewrite Hc. f_equal. now apply IH with w.
Qed.

Lemma claimed_lower t : claimsSelector t = true -> toLowerCase t = t.
Proof.
  rewrite claimsSelector_rule. unfold nonEmptyPrefix. intro H.
  apply orb_prop in H as [H|H]; [apply orb_prop in H as [H|H]|].
  - apply andb_prop in H as [_ H]. now apply prefix_lower with "channel".
  - apply andb_prop in H as [_ H]. now apply prefix_lower with "sender".
  - apply String.eqb_eq in H. now subst t.
Qed.

(** C1, as the code has it: selector matching for the Channel field is
    case-sensitive.  Of the tokens that differ from a claimed token [t]
    in letter case only, the converter claims [t] itself and no other. *)
Theorem claimsSelector_case_sensitive (t t' : string) :
  claimsSelector t = true ->
  caseVariant t t' = true ->
  (claimsSelector t' = true <-> t' = t).
Proof.
  intros Ht Hv. split.
  - intro Ht'. apply claimed_lower in Ht. apply claimed_lower in Ht'.
    apply String.eqb_eq in Hv. congruence.
  - intros ->. exact Ht.
Qed.

Lemma claimsSelector_case_sensitive_witness :
  claimsSelector "c" = true /\ caseVariant "c" "C" = true
  /\ (claimsSelector "C" = true <-> "C" = "c").
Proof.
  split; [reflexivity | split; [reflexivity|]].
  apply (claimsSelector_case_sensitive "c" "C"); reflexivity.
Defined.

(** C1 as stated fails: ["c"], ["channel"] and ["sender"] are claimed,
    their case variants ["C"], ["Channel"] and ["SENDER"] are not. *)
Lemma claimsSelector_not_case_insensitive :
  (claimsSelector "c" = true /\ caseVariant "c" "C" = true
   /\ claimsSelector "C" = false)
  /\ (claimsSelector "channel" = true /\ caseVariant "channel" "Channel" = true
      /\ claimsSelector "Channel" = false)
  /\ (claimsSelector "sender" = true /\ caseVariant "sender" "SENDER" = true
      /\ claimsSelector "SENDER" = false).
Proof. repeat split; reflexivity. Qed.

(** C2: the selector rule of the Channel converter claims every
    non-empty prefix of ["channel"], every non-empty prefix of ["sender"]
    and the bare symbol ["!"], and nothing else; ["channels"] is not
    claimed. *)
Theorem claimsSelector_prefixes :
  (forall t : string,
      claimsSelector t
      = nonEmptyPrefix t "channel" || nonEmptyPrefix t "sender" || (t =? "!"))
  /\ claimsSelector "channels" = false.
Proof. split; [exact claimsSelector_rule | reflexivity]. Qed.

(** C3: the bare symbol ["!"] is claimed, and no longer token that
    begins with ["!"] is. *)
Theorem claimsSelector_bare_symbol_exact :
  claimsSelector "!" = true
  /\ forall (c : ascii) (rest : string),
       claimsSelector (String "!" (String c rest)) = false.
Proof.
  split; [reflexivity|]. intros c rest.
  rewrite claimsSelector_rule. unfold nonEmptyPrefix.
  rewrite !prefix_cons. reflexivity.
Qed.

(** C4: the selector rule of the Channel converter does not claim the
    empty string, so a segment whose separator has nothing before it
    (its selector token is the empty string) is generic free text:
    the Channel converter does not claim it; whatever converters are
    registered, it is never resolved to the Channel converter; with the
    Channel converter registered it resolves to the default conversion
    and compiles to the text match of its value over the default fields
    (inside the negation wrapper when the segment is negated), as
    [:arte] does, where [!:arte] is a Channel-scoped clause. *)
Theorem claimsSelector_empty :
  claimsSelector "" = false
  /\ (forall (raw value : string) (neg : bool),
        Compiler.claims Compiler.channelConverter
          (Compiler.mkSegment raw (Some "") value neg) = false)
  /\ (forall (convs : list Compiler.SegmentConverter)
             (raw value : string) (neg : bool),
        Compiler.resolve convs (Compiler.mkSegment raw (Some "") value neg)
        <> Compiler.Success (Compiler.Claimed Compiler.channelConverter))
  /\ (forall (raw value : string) (neg : bool),
        Compiler.resolve [Compiler.channelConverter]
          (Compiler.mkSegment raw (Some "") value neg)
        = Compiler.Success Compiler.Default)
  /\ (forall (defaultFields : list Field) (input raw value : string)
             (neg : bool),
        Compiler.compile
          (fun _ => Some [Compiler.mkSegment raw (Some "") value neg])
          [Compiler.channelConverter] defaultFields input
        = Compiler.Success
            (if neg
             then BoolQuery [] [TextMatch defaultFields value And] []
             else TextMatch defaultFields value And))
  /\ Compiler.sampleCompile ":arte"
     = Compiler.Success (TextMatch [Title; Description] "arte" And)
  /\ Compiler.sampleCompile "!:arte"
     = Compiler.Success (TextMatch [Channel] "arte" And).
Proof.
  split; [reflexivity|].
  split; [reflexivity|].
  split.
  { intros convs raw value neg. unfold Compiler.resolve.
    destruct (find _ convs) as [c|] eqn:Hfind.
    - intro Heq. injection Heq as ->.
      apply find_some in Hfind. destruct Hfind as [_ Hclaims].
      discriminate Hclaims.
    - destruct (Compiler.hasSelector _); discriminate. }
  split; [reflexivity|].
  split; [|split; reflexivity].
  intros defaultFields input raw value neg. destruct neg; reflexivity.
Qed.

(** C5: for every text, [textToQuery] returns the text match over the
    Channel field alone, with that text and [Operator.And]. *)
Theorem textToQuery_text_match (t : string) :
  textToQuery t = Some (TextMatch [Channel] t And).
Proof. reflexivity. Qed.

End ChannelFacts.

(** ** The query compiler *)

Module CompilerFacts.
Import Query Compiler.

Lemma find_first {A : Type} (f : A -> bool) before c after :
  Forall (fun x => f x = false) before ->
  f c = true ->
  find f (before ++ c :: after)%list = Some c.
Proof.
  intros Hb Hc. induction Hb as [|x l Hx _ IH]; simpl.
  - now rewrite Hc.
  - now rewrite Hx.
Qed.

Lemma find_none_unclaimed {A : Type} (f : A -> bool) l :
  find f l = None <-> Forall (fun x => f x = false) l.
Proof.
  induction l as [|x l IH]; simpl.
  - split; [constructor | reflexivity].
  - destruct (f x) eqn:E.
    + split; [discriminate | intro H; inversion H; congruence].
    + rewrite IH. split; [now constructor | intro H; now inversion H].
Qed.

Lemma find_some_first {A : Type} (f : A -> bool) l c :
  find f l = Some c ->
  exists before after,
    l = (before ++ c :: after)%list
    /\ Forall (fun x => f x = false) before /\ f c = true.
Proof.
  induction l as [|x l IH]; simpl; [discriminate|].
  destruct (f x) eqn:E.
  - intros [= ->]. exists [], l. repeat split; [constructor | assumption].
  - intro H. destruct (IH H) as (before & after & -> & Hb & Hc).
    exists (x :: before), after. repeat split; [now constructor | assumption].
Qed.

Lemma hasSelector_true seg :
  hasSelector seg = true <-> exists t, selectorToken seg = Some t /\ t <> "".
Proof.
  unfold hasSelector. destruct (selectorToken seg) as [t|].
  - rewrite negb_true_iff, String.eqb_neq. split.
    + intro H. now exists t.
    + intros (t' & [= <-] & H). exact H.
  - split; [discriminate | intros (t & H & _); discriminate].
Qed.

Section Compile.
Variable tokenize : string -> option (list Segment).
Variable convs : list SegmentConverter.
Variable defaultFields : list Field.

Lemma Resolves_resolve seg r :
  Resolves convs seg r -> resolve convs seg = r.
Proof.
  unfold resolve, unclaimed.
  intros [before c after -> Hb Hc | t Hu Ht Hne | Hu Ht | Hu Ht].
  - now rewrite (@find_first _ (fun c => claims c seg) before c after Hb Hc).
  - apply find_none_unclaimed in Hu. rewrite Hu.
    assert (H : hasSelector seg = true) by (apply hasSelector_true; eauto).
    now rewrite H.
  - apply find_none_unclaimed in Hu. rewrite Hu.
    unfold hasSelector. now rewrite Ht.
  - apply find_none_unclaimed in Hu. rewrite Hu.
    unfold hasSelector. now rewrite Ht.
Qed.

Lemma resolve_Resolves seg : Resolves convs seg (resolve convs seg).
Proof.
  unfold resolve.
  destruct (find (fun c => claims c seg) convs) as [c|] eqn:E.
  - apply find_some_first in E as (before & after & -> & Hb & Hc).
    now apply Resolves_first with before after.
  - apply find_none_unclaimed in E.
    destruct (hasSelector seg) eqn:Hs.
    + apply hasSelector_true in Hs as (t & Ht & Hne).
      now apply Resolves_unknown with t.
    + unfold hasSelector in Hs.
      destruct (selectorToken seg) as [t|] eqn:Ht.
      * apply negb_false_iff, String.eqb_eq in Hs. subst t.
        now apply Resolves_empty_selector.
      * now apply Resolves_no_selector.
Qed.

Lemma Converts_convertResolved sr r :
  Converts defaultFields sr r ->
  convertResolved defaultFields (fst sr) (snd sr) = r.
Proof.
  intros [seg c q H | seg c H | seg]; simpl; try rewrite H; reflexivity.
Qed.

Lemma convertResolved_Converts sr :
  Converts defaultFields sr
           (convertResolved defaultFields (fst sr) (snd sr)).
Proof.
  destruct sr as [seg [c|]]; simpl.
  - destruct (convert c seg) eqn:E; now constructor.
  - constructor.
Qed.

Lemma InOrder_traverse {A B : Type} (step : A -> Result B -> Prop) f l r :
  (forall a x, step a x -> f a = x) ->
  InOrder step l r -> traverse f l = r.
Proof.
  intros Hf H.
  induction H as [| a l b bs Ha _ IH | a l e Ha | a l b e Ha _ IH]; simpl.
  - reflexivity.
  - now rewrite (Hf _ _ Ha), IH.
  - now rewrite (Hf _ _ Ha).
  - now rewrite (Hf _ _ Ha), IH.
Qed.

Lemma traverse_InOrder {A B : Type} (step : A -> Result B -> Prop) f l :
  (forall a, step a (f a)) -> InOrder step l (traverse f l).
Proof.
  intro Hf. induction l as [|a l IH]; simpl; [constructor|].
  pose proof (Hf a) as Ha. destruct (f a) as [b|e].
  - destruct (traverse f l) as [bs|e].
    + now constructor.
    + now apply InOrder_fails_later with b.
  - now constructor.
Qed.
End Compile.

Lemma must_wrapped nodes :
  map snd (filter (fun n => negb (fst n)) (wrapped nodes))
  = map snd (filter (fun n => negb (negated (fst n))) nodes).
Proof.
  induction nodes as [|[seg q] l IH]; [reflexivity|].
  simpl. unfold wrapNegated. destruct (negated seg); simpl; now rewrite IH.
Qed.

Lemma mustNot_wrapped nodes :
  flat_map (fun n => negatedNodes (snd n))
           (filter (fun n => fst n) (wrapped nodes))
  = map snd (filter (fun n => negated (fst n)) nodes).
Proof.
  induction nodes as [|[seg q] l IH]; [reflexivity|].
  simpl. unfold wrapNegated. destruct (negated seg); simpl; now rewrite IH.
Qed.

Lemma Folds_fold nodes q : Folds nodes q -> fold (wrapped nodes) = q.
Proof.
  unfold fold. rewrite must_wrapped, mustNot_wrapped.
  intros [q' Hm Hn | must mustNot Hm Hn Hne].
  - now rewrite Hm, Hn.
  - rewrite Hm, Hn.
    destruct must as [|a [|b must]]; try reflexivity.
    destruct mustNot; [|reflexivity].
    exfalso. apply Hne. now split.
Qed.

Lemma fold_Folds nodes : Folds nodes (fold (wrapped nodes)).
Proof.
  unfold fold. rewrite must_wrapped, mustNot_wrapped.
  destruct (map snd (filter (fun n => negb (negated (fst n))) nodes))
    as [|a [|b must]] eqn:Hm.
  - apply Folds_bool; auto. intros [H _]. discriminate.
  - destruct (map snd (filter (fun n => negated (fst n)) nodes))
      as [|c mustNot] eqn:Hn.
    + apply Folds_single; [assumption|].
      destruct (filter (fun n => negated (fst n)) nodes);
        [reflexivity | discriminate].
    + apply Folds_bool; auto. intros [_ H]. discriminate.
  - apply Folds_bool; auto. intros [H _]. discriminate.
Qed.

Section Determinism.
Variable tokenize : string -> option (list Segment).
Variable convs : list SegmentConverter.
Variable defaultFields : list Field.

Lemma Compiles_compile input r :
  Compiles tokenize convs defaultFields input r ->
  compile tokenize convs defaultFields input = r.
Proof.
  unfold compile, perSegmentNodes.
  intros [Ht | segs e Ht H2 | segs rs e Ht H2 H3 | segs rs nodes q Ht H2 H3 H5];
    rewrite Ht.
  - reflexivity.
  - now rewrite (InOrder_traverse (resolve convs) (@Resolves_resolve convs) H2).
  - rewrite (InOrder_traverse (resolve convs) (@Resolves_resolve convs) H2).
    now rewrite (InOrder_traverse (convertPair defaultFields)
                   (@Converts_convertResolved defaultFields) H3).
  - rewrite (InOrder_traverse (resolve convs) (@Resolves_resolve convs) H2).
    rewrite (InOrder_traverse (convertPair defaultFields)
               (@Converts_convertResolved defaultFields) H3).
    f_equal. now apply Folds_fold.
Qed.

Lemma compile_Compiles input :
  Compiles tokenize convs defaultFields input
           (compile tokenize convs defaultFields input).
Proof.
  unfold compile, perSegmentNodes.
  destruct (tokenize input) as [segs|] eqn:Ht; [|now constructor].
  pose proof (traverse_InOrder (Resolves convs) (resolve convs) segs
                (resolve_Resolves convs)) as H2.
  destruct (traverse (resolve convs) segs) as [rs|e].
  - pose proof (traverse_InOrder (Converts defaultFields)
                  (convertPair defaultFields) (combine segs rs)
                  (convertResolved_Converts defaultFields)) as H3.
    destruct (traverse (convertPair defaultFields) (combine segs rs))
      as [nodes|e].
    + apply Compiles_success with segs rs nodes; auto. apply fold_Folds.
    + now apply Compiles_conversion_error with segs rs.
  - now apply Compiles_resolution_error with segs.
Qed.

(** C6: compilation is deterministic.  For a fixed tokenizer,
    converter registration and default-field set, any two outcomes of
    compiling the same input are the same, the AST included. *)
Theorem compile_deterministic (input : string) (r1 r2 : Result QueryBody) :
  Compiles tokenize convs defaultFields input r1 ->
  Compiles tokenize convs defaultFields input r2 ->
  r1 = r2.
Proof.
  intros H1 H2.
  apply Compiles_compile in H1. apply Compiles_compile in H2. congruence.
Qed.

Lemma traverse_resolve_unknown segs seg :
  In seg segs ->
  resolve convs seg = Failure UnknownSelectorError ->
  traverse (resolve convs) segs = Failure UnknownSelectorError.
Proof.
  intros Hin Hseg. induction segs as [|a l IH]; [contradiction|].
  simpl. destruct (resolve convs a) as [r|e] eqn:Ea.
  - destruct Hin as [->|Hin]; [congruence|]. now rewrite (IH Hin).
  - unfold resolve in Ea.
    destruct (find (fun c => claims c a) convs); [discriminate|].
    destruct (hasSelector a); [|discriminate].
    injection Ea as <-. reflexivity.
Qed.

(** C7: when the input has a segment with a non-empty selector token
    that no registered converter claims, [compile] fails with
    UnknownSelectorError; the segment is not compiled as free text. *)
Theorem compile_unknown_selector (input : string) (segments : list Segment)
  (seg : Segment) (t : string) :
  tokenize input = Some segments ->
  In seg segments ->
  selectorToken seg = Some t ->
  t <> "" ->
  (forall c, In c convs -> claims c seg = false) ->
  compile tokenize convs defaultFields input = Failure UnknownSelectorError.
Proof.
  intros Ht Hin Hsel Hne Hun.
  unfold compile, perSegmentNodes. rewrite Ht.
  rewrite (traverse_resolve_unknown segments seg Hin); [reflexivity|].
  apply Resolves_resolve. apply Resolves_unknown with t; auto.
  now apply Forall_forall.
Qed.

Lemma size_pos q : 0 < size q.
Proof. destruct q; simpl; lia. Qed.

Lemma not_own_wrapper q : q <> BoolQuery [q] [] [].
Proof. intro H. apply (f_equal size) in H. simpl in H. lia. Qed.

(** C8: single-clause minimization.  When the input yields exactly one
    per-segment node and that node is not negated, [compile] returns
    the node itself and not a Bool node that wraps it. *)
Theorem compile_single_clause (input : string) (node : QueryBody) :
  perSegmentNodes tokenize convs defaultFields input
    = Success [(false, node)] ->
  compile tokenize convs defaultFields input = Success node
  /\ compile tokenize convs defaultFields input
     <> Success (BoolQuery [node] [] []).
Proof.
  intro H. unfold compile. rewrite H. split; [reflexivity|].
  intros [= E]. exact (not_own_wrapper E).
Qed.
End Determinism.

(** The scenarios of section 8 that involve the Channel converter. *)
Example scenario_free_text :
  sampleCompile "arte"
  = Success (TextMatch [Title; Description] "arte" And).
Proof. reflexivity. Qed.

Example scenario_channel_prefix :
  sampleCompile "c:arte" = Success (TextMatch [Channel] "arte" And)
  /\ sampleCompile "!:arte" = Success (TextMatch [Channel] "arte" And).
Proof. split; reflexivity. Qed.

Example scenario_negated_channel :
  sampleCompile "-c:arte news"
  = Success (BoolQuery [TextMatch [Title; Description] "news" And]
                       [TextMatch [Channel] "arte" And] []).
Proof. reflexivity. Qed.

Lemma compile_deterministic_witness :
  Compiles sampleTokenize [channelConverter] [Title; Description] "c:arte"
           (Success (TextMatch [Channel] "arte" And))
  /\ Success (TextMatch [Channel] "arte" And) = sampleCompile "c:arte".
Proof.
  assert (H : Compiles sampleTokenize [channelConverter] [Title; Description]
                "c:arte" (Success (TextMatch [Channel] "arte" And))).
  { apply Compiles_success
      with (segments := [mkSegment "c:arte" (Some "c") "arte" false])
           (resolutions := [Claimed channelConverter])
           (nodes := [TextMatch [Channel] "arte" And]).
    - reflexivity.
    - apply InOrder_cons; [|apply InOrder_nil].
      apply Resolves_first with (before := []) (after := []);
        [reflexivity | constructor | reflexivity].
    - apply InOrder_cons; [|apply InOrder_nil].
      apply Converts_claimed. reflexivity.
    - apply Folds_single; reflexivity. }
  split; [exact H|].
  exact (compile_deterministic H
           (compile_Compiles sampleTokenize [channelConverter]
              [Title; Description] "c:arte")).
Defined.

Lemma compile_unknown_selector_witness :
  sampleTokenize "xyz:value"
    = Some [mkSegment "xyz:value" (Some "xyz") "value" false]
  /\ sampleCompile "xyz:value" = Failure UnknownSelectorError.
Proof.
  split; [reflexivity|].
  apply (@compile_unknown_selector sampleTokenize [channelConverter]
           [Title; Description] "xyz:value"
           [mkSegment "xyz:value" (Some "xyz") "value" false]
           (mkSegment "xyz:value" (Some "xyz") "value" false) "xyz").
  - reflexivity.
  - left; reflexivity.
  - reflexivity.
  - discriminate.
  - intros c [<-|[]]. reflexivity.
Defined.

Lemma compile_single_clause_witness :
  perSegmentNodes sampleTokenize [channelConverter] [Title; Description]
                  "c:arte"
    = Success [(false, TextMatch [Channel] "arte" And)]
  /\ sampleCompile "c:arte" = Success (TextMatch [Channel] "arte" And)
  /\ sampleCompile "c:arte"
     <> Success (BoolQuery [TextMatch [Channel] "arte" And] [] []).
Proof.
  split; [reflexivity|].
  apply (@compile_single_clause sampleTokenize [channelConverter]
           [Title; Description] "c:arte" (TextMatch [Channel] "arte" And)).
  reflexivity.
Defined.

End CompilerFacts.

(** ** Numbers *)

Module Binary64Facts.
Import Binary64.
Local Open Scope Z_scope.

Lemma round64_exact z : Z.abs z < 9007199254740992 -> round64 z = z.
Proof.
  intro H. unfold round64. cbv zeta.
  destruct (Z.ltb_spec (Z.abs z) 9007199254740992); [reflexivity | lia].
Qed.

(** From [2 ^ 53] on, rounding keeps the magnitude at [2 ^ 53] or more. *)
Lemma round64_far z :
  9007199254740992 <= Z.abs z ->
  9007199254740992 <= Z.abs (round64 z) /\ Z.sgn (round64 z) = Z.sgn z.
Proof.
  intro H. unfold round64. cbv zeta.
  destruct (Z.ltb_spec (Z.abs z) 9007199254740992) as [Hlt|_]; [lia|].
  set (a := Z.abs z) in *.
  assert (Hlog : 53 <= Z.log2 a).
  { change 53 with (Z.log2 9007199254740992). now apply Z.log2_le_mono. }
  set (e := Z.log2 a - 52).
  assert (He : 1 <= e) by (unfold e; lia).
  assert (Hulp : 2 <= 2 ^ e).
  { change 2 with (2 ^ 1) at 1. apply Z.pow_le_mono_r; lia. }
  assert (Ha : 2 ^ e * 4503599627370496 <= a).
  { change 4503599627370496 with (2 ^ 52). rewrite <- Z.pow_add_r by lia.
    replace (e + 52) with (Z.log2 a) by (unfold e; lia).
    apply Z.log2_spec. lia. }
  assert (Hq : 4503599627370496 <= a / 2 ^ e).
  { apply Z.div_le_lower_bound; lia. }
  set (q := a / 2 ^ e) in *. set (r := a mod 2 ^ e).
  set (q' := if 2 * r <? 2 ^ e then q
             else if 2 ^ e <? 2 * r then q + 1
             else if Z.even q then q else q + 1).
  assert (Hq' : q <= q').
  { unfold q'. destruct (2 * r <? 2 ^ e); [lia|].
    destruct (2 ^ e <? 2 * r); [lia|]. destruct (Z.even q); lia. }
  assert (Hbig : 9007199254740992 <= q' * 2 ^ e) by nia.
  destruct (Z.sgn_spec z) as [[Hz ->]|[[Hz ->]|[Hz ->]]]; lia.
Qed.

(** Against a safe integer, a rounded number compares as the exact one. *)
Lemma leb_round64 i d :
  isSafeInteger i -> (i <=? round64 d) = (i <=? d).
Proof.
  unfold isSafeInteger. intro Hi.
  destruct (Z_lt_le_dec (Z.abs d) 9007199254740992) as [Hd|Hd].
  - now rewrite round64_exact.
  - destruct (round64_far d Hd) as [Hr Hs].
    destruct (Z.leb_spec i (round64 d)), (Z.leb_spec i d); try reflexivity;
      exfalso; lia.
Qed.

(** A number is shown to be a safe integer by computing. *)
Lemma isSafeInteger_computed z :
  (Z.abs z <=? 9007199254740991) = true -> isSafeInteger z.
Proof. unfold isSafeInteger. intro H. apply Z.leb_le in H. lia. Qed.

Lemma sub_exact a b : isSafeInteger (a - b) -> sub a b = a - b.
Proof. unfold isSafeInteger, sub. intro H. apply round64_exact. lia. Qed.

Lemma mul_exact a b : isSafeInteger (a * b) -> mul a b = a * b.
Proof. unfold isSafeInteger, mul. intro H. apply round64_exact. lia. Qed.

End Binary64Facts.

(** ** The filmlist manager *)

Module FilmlistFacts.
Import FilmlistManager.

(** Find the place of [ev] in a trace whose head is known. *)
Lemma cons_split {A : Type} (e : A) tr pre ev post :
  e :: tr = (pre ++ ev :: post)%list ->
  (pre = [] /\ ev = e /\ post = tr)
  \/ (exists pre', pre = e :: pre' /\ tr = (pre' ++ ev :: post)%list).
Proof.
  destruct pre as [|x pre]; simpl; intros [= -> ->].
  - left. auto.
  - right. now exists pre.
Qed.

Lemma nil_split {A : Type} (pre : list A) ev post :
  [] = (pre ++ ev :: post)%list -> False.
Proof. destruct pre; discriminate. Qed.


Section Collaborators.
Variable Resource : Type.
Variable resource_id : Resource -> string.
Variable resource_timestamp : Resource -> Z.
Variable FilmlistMetadata : Type.
Variable Exn : Type.
Variable World : Type.
Variable handle :
  forall r : Request Resource FilmlistMetadata,
    World -> Outcome Exn (Resp r) * World.

(** What a run of [compareTime] over the environment's function is, once
    the stored timestamp and the clock have been read. *)
Lemma run_compareTime (key : Key) (interval : Z) (w w1 w2 : World)
  (lastCheck now : Z) :
  handle (KvGet KEY_VALUE_SCOPE key 0) w = (Ok lastCheck, w1) ->
  handle CurrentTimestamp w1 = (Ok now, w2) ->
  run handle (compareTime key interval (call CallFunc)) w
  = let read := [Returned (KvGet KEY_VALUE_SCOPE key 0) (ANumber lastCheck);
                 Returned CurrentTimestamp (ANumber now)] in
    if (interval <=? Binary64.sub now lastCheck)%Z then
      match handle CallFunc w2 with
      | (Ok _, w3) =>
          match handle (KvSet KEY_VALUE_SCOPE key now) w3 with
          | (Ok _, w4) =>
              mkRun (Ok tt) w4
                (read ++ [Returned CallFunc AUnit;
                          Returned (KvSet KEY_VALUE_SCOPE key now) AUnit])
          | (Throw e, w4) =>
              mkRun (Throw e) w4
                (read ++ [Returned CallFunc AUnit;
                          Rejected (KvSet KEY_VALUE_SCOPE key now) e])
          end
      | (Throw e, w3) => mkRun (Throw e) w3 (read ++ [Rejected CallFunc e])
      end
    else mkRun (Ok tt) w2 read.
Proof.
  intros Hget Hnow. unfold compareTime.
  simpl. rewrite Hget. simpl. rewrite Hnow. simpl.
  destruct (interval <=? Binary64.sub now lastCheck)%Z; simpl; [|reflexivity].
  destruct (handle CallFunc w2) as [[[]|e] w3]; simpl; [|reflexivity].
  destruct (handle (KvSet KEY_VALUE_SCOPE key now) w3) as [[[]|e] w4];
    reflexivity.
Qed.


Lemma justified_nil filmlists minimumTimestamp :
  enqueuesJustified (Exn := Exn) (FilmlistMetadata := FilmlistMetadata)
    resource_id resource_timestamp filmlists minimumTimestamp [].
Proof. intros pre ev post item H. now apply nil_split in H. Qed.

Lemma justified_skip filmlists minimumTimestamp e
  (tr : list (Event Resource FilmlistMetadata Exn)) :
  (forall item, requestOf e <> Some (Enqueue item)) ->
  enqueuesJustified resource_id resource_timestamp filmlists
    minimumTimestamp tr ->
  enqueuesJustified resource_id resource_timestamp filmlists
    minimumTimestamp (e :: tr).
Proof.
  intros He Htr pre ev post item H Hreq.
  apply cons_split in H as [(-> & -> & ->) | (pre' & -> & H)].
  - now apply He in Hreq.
  - destruct (Htr _ _ _ _ H Hreq) as (p & fl & now & ins & -> & Hrest).
    exists (e :: p), fl, now, ins. split; [reflexivity | exact Hrest].
Qed.

Lemma justified_more filmlists minimumTimestamp filmlist
  (tr : list (Event Resource FilmlistMetadata Exn)) :
  enqueuesJustified resource_id resource_timestamp filmlists
    minimumTimestamp tr ->
  enqueuesJustified resource_id resource_timestamp (filmlist :: filmlists)
    minimumTimestamp tr.
Proof.
  intros Htr pre ev post item H Hreq.
  destruct (Htr _ _ _ _ H Hreq) as (p & fl & now & ins & -> & Hin & Hrest).
  exists p, fl, now, ins. split; [reflexivity|]. split; [now right | exact Hrest].
Qed.

Lemma justified_enqueue filmlists minimumTimestamp filmlist now inserted e
  (tr : list (Event Resource FilmlistMetadata Exn)) :
  In filmlist filmlists ->
  (minimumTimestamp <= resource_timestamp (filmlist_resource filmlist))%Z ->
  requestOf e = Some (Enqueue {| filmlistImportId := id inserted |}) ->
  enqueuesJustified resource_id resource_timestamp filmlists
    minimumTimestamp tr ->
  enqueuesJustified resource_id resource_timestamp filmlists
    minimumTimestamp
    (Returned (HasResource (resource_id (filmlist_resource filmlist)))
              (ABool false)
     :: Returned CurrentTimestamp (ANumber now)
     :: Returned (Save (pendingImport (filmlist_resource filmlist) now))
                 (AImport inserted)
     :: e :: tr).
Proof.
  intros Hin Hmin He Htr pre ev post item H Hreq.
  apply cons_split in H as [(-> & -> & ->) | (p1 & -> & H)];
    [discriminate|].
  apply cons_split in H as [(-> & -> & ->) | (p2 & -> & H)];
    [discriminate|].
  apply cons_split in H as [(-> & -> & ->) | (p3 & -> & H)];
    [discriminate|].
  apply cons_split in H as [(-> & -> & ->) | (p4 & -> & H)].
  - exists [], filmlist, now, inserted.
    repeat split; try assumption.
    rewrite He in Hreq. now injection Hreq as <-.
  - destruct (Htr _ _ _ _ H Hreq) as (p & fl & now' & ins & -> & Hrest).
    eexists (_ :: _ :: _ :: _ :: p), fl, now', ins.
    split; [reflexivity | exact Hrest].
Qed.

(** C10: in a run of [enqueueMissingFilmlists], every enqueue call
    comes right after three calls for one of the given filmlists whose
    resource timestamp is at least [minimumTimestamp]: the repository
    answered that it does not have the resource id, the clock was
    read, and the import of the resource was saved with state
    ["pending"] and null [filmlistMetadata], [importTimestamp],
    [importDuration] and [entriesCount]; the enqueued item carries the
    id of the saved import. *)
Theorem enqueueMissingFilmlists_justified
  (filmlists : list (Filmlist Resource)) (minimumTimestamp : Z) (w : World)
  pre ev post item :
  trace (run handle
           (enqueueMissingFilmlists resource_id resource_timestamp
              filmlists minimumTimestamp) w)
    = (pre ++ ev :: post)%list ->
  requestOf ev = Some (Enqueue item) ->
  exists pre' filmlist now inserted,
    pre = (pre' ++
           [Returned (HasResource (resource_id (filmlist_resource filmlist)))
                     (ABool false);
            Returned CurrentTimestamp (ANumber now);
            Returned (Save {| resource := filmlist_resource filmlist;
                              state := "pending";
                              enqueueTimestamp := now;
                              filmlistMetadata := None;
                              importTimestamp := None;
                              importDuration := None;
                              entriesCount := None |})
                     (AImport inserted)])%list
    /\ In filmlist filmlists
    /\ (minimumTimestamp <= resource_timestamp (filmlist_resource filmlist))%Z
    /\ filmlistImportId item = id inserted.
Proof.
  revert pre ev post item.
  change (enqueuesJustified (Exn := Exn) resource_id resource_timestamp
            filmlists minimumTimestamp
            (trace (run handle
               (enqueueMissingFilmlists resource_id resource_timestamp
                  filmlists minimumTimestamp) w))).
  unfold enqueueMissingFilmlists, forEach, filter_, while_.
  revert w. induction filmlists as [|fl fls IH]; intro w.
  - apply justified_nil.
  - (* After the stages, the token is read and the run ends or goes on. *)
    assert (Htoken : forall w',
      enqueuesJustified (Exn := Exn) resource_id resource_timestamp
        (fl :: fls) minimumTimestamp
        (trace (run handle
           (bind (bind (call CancellationIsSet)
                       (fun isSet : bool => Ret (negb isSet)))
                 (fun more : bool =>
                    if more
                    then enqueueMissingFilmlists resource_id
                           resource_timestamp fls minimumTimestamp
                    else Ret tt)) w'))).
    { intro w'. simpl.
      destruct (handle CancellationIsSet w') as [[isSet|e] w1]; simpl.
      - apply justified_skip; [discriminate|].
        destruct isSet; simpl; [apply justified_nil|].
        apply justified_more, IH.
      - apply justified_skip; [discriminate|]. apply justified_nil. }
    unfold enqueueMissingFilmlists, forEach, filter_, while_ in Htoken.
    simpl.
    destruct (Z.leb_spec minimumTimestamp
                (resource_timestamp (filmlist_resource fl)))
      as [Hmin|Hold]; simpl; [|exact (Htoken w)].
    destruct (handle (HasResource (resource_id (filmlist_resource fl))) w)
      as [[has|e] w2]; simpl.
    + destruct has; simpl.
      * apply justified_skip; [discriminate|]. exact (Htoken w2).
      * destruct (handle CurrentTimestamp w2) as [[now|e] w3]; simpl.
        -- destruct (handle (Save (pendingImport (filmlist_resource fl) now)) w3)
             as [[inserted|e] w4] eqn:Hsave;
             unfold pendingImport in Hsave; rewrite Hsave; simpl.
           ++ destruct (handle (Enqueue {| filmlistImportId := id inserted |}) w4)
                as [[[]|e] w5]; simpl.
              ** apply justified_enqueue;
                   [now left | assumption | reflexivity |].
                 apply justified_skip; [discriminate|].
                 exact (Htoken w5).
              ** apply justified_enqueue;
                   [now left | assumption | reflexivity |].
                 apply justified_nil.
           ++ do 3 (apply justified_skip; [discriminate|]).
              apply justified_nil.
        -- do 2 (apply justified_skip; [discriminate|]).
           apply justified_nil.
    + apply justified_skip; [discriminate|]. apply justified_nil.
Qed.
End Collaborators.

Import InMemory.






(** In memory, with a guarded function that throws, the stored timestamp
    stays absent; with one that returns, it becomes the clock reading. *)
Example compareTime_in_memory :
  let failing := mkWorld (fun _ => None) 1000 true false [] [] in
  keyValues (world (runIn (compareTime lastLatestCheck 500 guarded) failing))
            lastLatestCheck = None
  /\ keyValues (world (runIn (compareTime lastLatestCheck 500 guarded)
                             emptyWorld))
               lastLatestCheck = Some 1000%Z
  /\ keyValues (world (runIn (compareTime lastLatestCheck 2000 guarded)
                             emptyWorld))
               lastLatestCheck = None.
Proof. repeat split; reflexivity. Qed.

(** In memory, a filmlist that is too old and one whose resource was saved
    a moment before are passed over. *)
Example enqueueMissingFilmlists_in_memory :
  map filmlistImportId
      (queue (world (runIn (enqueueMissingFilmlists resource_id
                              resource_timestamp
                              [mkFilmlist ("a", 5%Z); mkFilmlist ("b", 50%Z);
                               mkFilmlist ("b", 60%Z); mkFilmlist ("c", 70%Z)]
                              10)
                           emptyWorld)))
  = ["import:b"; "import:c"].
Proof. reflexivity. Qed.

Lemma enqueueMissingFilmlists_justified_witness :
  exists pre' filmlist now inserted,
    ([Returned CancellationIsSet (ABool false);
      Returned (HasResource "a") (ABool false);
      Returned CurrentTimestamp (ANumber 1000);
      Returned (Save (pendingImport ("a", 50%Z) 1000))
               (AImport (mkSaved "import:a" (pendingImport ("a", 50%Z) 1000)))]
     : list (Event Resource unit string))
    = (pre' ++
       [Returned (HasResource (resource_id (filmlist_resource filmlist)))
                 (ABool false);
        Returned CurrentTimestamp (ANumber now);
        Returned (Save {| resource := filmlist_resource filmlist;
                          state := "pending";
                          enqueueTimestamp := now;
                          filmlistMetadata := None;
                          importTimestamp := None;
                          importDuration := None;
                          entriesCount := None |})
                 (AImport inserted)])%list
    /\ In filmlist [mkFilmlist ("old", 5%Z); mkFilmlist ("a", 50%Z)]
    /\ (10 <= resource_timestamp (filmlist_resource filmlist))%Z
    /\ filmlistImportId (mkQueueItem "import:a") = id inserted.
Proof.
  apply (@enqueueMissingFilmlists_justified Resource resource_id
           resource_timestamp unit string World handle
           [mkFilmlist ("old", 5%Z); mkFilmlist ("a", 50%Z)] 10 emptyWorld
           [Returned CancellationIsSet (ABool false);
            Returned (HasResource "a") (ABool false);
            Returned CurrentTimestamp (ANumber 1000);
            Returned (Save (pendingImport ("a", 50%Z) 1000))
                     (AImport (mkSaved "import:a"
                                 (pendingImport ("a", 50%Z) 1000)))]
           (Returned (Enqueue (mkQueueItem "import:a")) AUnit)
           [Counted; Returned CancellationIsSet (ABool false)]
           (mkQueueItem "import:a")).
  - reflexivity.
  - reflexivity.
Defined.

End FilmlistFacts.

(** ** More on the selector pattern *)

Module ChannelExtra.
Import Regex Query ChannelSegmentConverter Selector RegexFacts ChannelFacts.
Import Abbreviations.

Lemma existsb_map {A B : Type} (f : B -> bool) (g : A -> B) l :
  existsb f (map g l) = existsb (fun x => f (g x)) l.
Proof. induction l as [|x l IH]; simpl; [reflexivity | now rewrite IH]. Qed.

Lemma existsb_and {A : Type} (b : bool) (f : A -> bool) l :
  existsb (fun x => b && f x) l = b && existsb f l.
Proof.
  induction l as [|x l IH]; simpl.
  - now rewrite andb_false_r.
  - rewrite IH. destruct b; reflexivity.
Qed.

Lemma existsb_pointwise {A : Type} (f g : A -> bool) l :
  (forall x, f x = g x) -> existsb f l = existsb g l.
Proof.
  intro H. induction l as [|x l IH]; simpl; [reflexivity|].
  now rewrite H, IH.
Qed.

Lemma eqb_cons a t c p :
  (String a t =? String c p) = Ascii.eqb a c && (t =? p).
Proof. simpl. destruct (Ascii.eqb a c); reflexivity. Qed.

(** The non-empty prefixes of a word are the tokens that
    [nonEmptyPrefix] accepts. *)
Lemma nonEmptyPrefix_enumerated w : forall t,
  nonEmptyPrefix t w = existsb (String.eqb t) (nonEmptyPrefixes w).
Proof.
  unfold nonEmptyPrefix.
  induction w as [|c w IH]; intros [|a t].
  - reflexivity.
  - reflexivity.
  - cbn [nonEmptyPrefixes existsb negb String.eqb andb orb].
    rewrite existsb_map. clear IH.
    induction (nonEmptyPrefixes w) as [|p l IHl]; [reflexivity | exact IHl].
  - rewrite prefix_cons. simpl negb. rewrite andb_true_l.
    cbn [nonEmptyPrefixes existsb]. rewrite existsb_map.
    rewrite eqb_cons.
    rewrite (existsb_pointwise _ (fun p => Ascii.eqb a c && (t =? p)))
      by (intros p; apply eqb_cons).
    rewrite existsb_and, <- andb_orb_distrib_r, <- IH.
    f_equal. destruct t as [|b t]; [apply prefix_nil_l | reflexivity].
Qed.

(** X1: the tokens the selector pattern accepts are the seven
    abbreviations of ["channel"], the six of ["sender"] and ["!"]. *)
Theorem claimsSelector_tokens (t : string) :
  claimsSelector t
  = existsb (String.eqb t)
      ["c"; "ch"; "cha"; "chan"; "chann"; "channe"; "channel";
       "s"; "se"; "sen"; "send"; "sende"; "sender"; "!"].
Proof.
  rewrite claimsSelector_rule, !nonEmptyPrefix_enumerated.
  change ["c"; "ch"; "cha"; "chan"; "chann"; "channe"; "channel";
          "s"; "se"; "sen"; "send"; "sende"; "sender"; "!"]
    with ((nonEmptyPrefixes "channel" ++ nonEmptyPrefixes "sender")
            ++ ["!"])%list.
  rewrite !existsb_app. f_equal.
  cbn [existsb]. now rewrite orb_false_r.
Qed.

Lemma prefix_trans a : forall b c,
  String.prefix a b = true -> String.prefix b c = true ->
  String.prefix a c = true.
Proof.
  induction a as [|x a IH]; intros b c Hab Hbc; [apply prefix_nil_l|].
  destruct b as [|y b]; [discriminate|].
  destruct c as [|z c]; [discriminate|].
  rewrite prefix_cons in *.
  apply andb_prop in Hab as [Hxy Hab]. apply andb_prop in Hbc as [Hyz Hbc].
  apply Ascii.eqb_eq in Hxy. apply Ascii.eqb_eq in Hyz. subst.
  rewrite Ascii.eqb_refl. simpl. now apply IH with b.
Qed.

Lemma nonEmptyPrefix_trans a b c :
  nonEmptyPrefix a b = true -> nonEmptyPrefix b c = true ->
  nonEmptyPrefix a c = true.
Proof.
  unfold nonEmptyPrefix. intros Hab Hbc.
  apply andb_prop in Hab as [Ha Hab]. apply andb_prop in Hbc as [_ Hbc].
  rewrite Ha. simpl. now apply prefix_trans with b.
Qed.

(** X2: abbreviation is progressive.  Every non-empty prefix of a token
    the selector pattern accepts is accepted as well. *)
Theorem claimsSelector_prefix_closed (t t' : string) :
  claimsSelector t = true ->
  nonEmptyPrefix t' t = true ->
  claimsSelector t' = true.
Proof.
  rewrite !claimsSelector_rule. intros Ht Hp.
  apply orb_prop in Ht as [Ht|Ht]; [apply orb_prop in Ht as [Ht|Ht]|].
  - now rewrite (nonEmptyPrefix_trans _ _ _ Hp Ht).
  - rewrite (nonEmptyPrefix_trans _ _ _ Hp Ht). now rewrite orb_true_r.
  - apply String.eqb_eq in Ht. subst t.
    rewrite nonEmptyPrefix_enumerated in Hp. simpl in Hp.
    rewrite orb_false_r in Hp. rewrite Hp. now rewrite orb_true_r.
Qed.

Lemma claimsSelector_prefix_closed_witness :
  claimsSelector "chan" = true /\ nonEmptyPrefix "ch" "chan" = true
  /\ claimsSelector "ch" = true.
Proof.
  split; [reflexivity | split; [reflexivity|]].
  apply (@claimsSelector_prefix_closed "chan" "ch"); reflexivity.
Defined.

End ChannelExtra.

(** ** More on the filmlist manager *)

Module FilmlistExtra.
Import FilmlistManager Observations FilmlistFacts.

(** Find an event in a trace whose head is known, keeping the equations. *)
Ltac find_in H :=
  repeat
    (let pre' := fresh "pre" in
     let Hev := fresh "Hev" in
     apply cons_split in H as [(-> & Hev & ->) | (pre' & -> & H)];
     [try discriminate Hev|]);
  try (apply nil_split in H; contradiction).

Section Collaborators.
Variable Resource : Type.
Variable resource_id : Resource -> string.
Variable resource_timestamp : Resource -> Z.
Variable FilmlistMetadata : Type.
Variable Exn : Type.
Variable World : Type.
Variable handle :
  forall r : Request Resource FilmlistMetadata,
    World -> Outcome Exn (Resp r) * World.

(** A computation followed by another: the second runs from the state the
    first left, unless the first rejected. *)
Lemma run_bind {A B : Type} (p : Prog Resource FilmlistMetadata A)
  (f : A -> Prog Resource FilmlistMetadata B) : forall w,
  run handle (bind p f) w
  = match outcome (run handle p w) with
    | Ok a =>
        let rest := run handle (f a) (world (run handle p w)) in
        mkRun (outcome rest) (world rest)
              (trace (run handle p w) ++ trace rest)
    | Throw e =>
        mkRun (Throw e) (world (run handle p w)) (trace (run handle p w))
    end.
Proof.
  induction p as [a | r k IH | k IH]; intro w; simpl.
  - now destruct (run handle (f a) w).
  - destruct (handle r w) as [[x|e] w']; simpl; [|reflexivity].
    rewrite IH. now destruct (outcome (run handle (k x) w')).
  - rewrite IH. now destruct (outcome (run handle k w)).
Qed.

(** Every run of [enqueueMissingFilmlists] is made of the blocks above. *)
Lemma Blocks_run (minimumTimestamp : Z) (filmlists : list (Filmlist Resource)) :
  forall w,
    Blocks resource_id resource_timestamp minimumTimestamp filmlists
      (outcome (run handle
                  (enqueueMissingFilmlists resource_id resource_timestamp
                     filmlists minimumTimestamp) w))
      (trace (run handle
                (enqueueMissingFilmlists resource_id resource_timestamp
                   filmlists minimumTimestamp) w)).
Proof.
  induction filmlists as [|fl fls IH]; intro w.
  - constructor.
  - (* After the stages, the token is read and the run ends or goes on. *)
    assert (Htoken : forall tr w',
      Stages resource_id resource_timestamp minimumTimestamp fl None tr ->
      let token :=
        run handle
          (bind (bind (call CancellationIsSet)
                      (fun isSet : bool => Ret (negb isSet)))
                (fun more : bool =>
                   if more
                   then enqueueMissingFilmlists resource_id
                          resource_timestamp fls minimumTimestamp
                   else Ret tt)) w' in
      Blocks resource_id resource_timestamp minimumTimestamp (fl :: fls)
        (outcome token) (tr ++ trace token)).
    { intros tr w' Hs. simpl.
      destruct (handle CancellationIsSet w') as [[isSet|e] w1]; simpl.
      - destruct isSet; simpl.
        + now apply Blocks_cancelled.
        + apply Blocks_next; [assumption | apply IH].
      - now apply Blocks_token_rejected. }
    unfold enqueueMissingFilmlists, forEach, filter_, while_ in *.
    simpl.
    destruct (minimumTimestamp <=? resource_timestamp (filmlist_resource fl))%Z
      eqn:Hnew; simpl.
    + destruct (handle (HasResource (resource_id (filmlist_resource fl))) w)
        as [[has|e] w2]; simpl;
        [|now apply Blocks_rejected, Stages_lookup_rejected].
      destruct has; simpl.
      { apply (Htoken [_] w2). now apply Stages_known. }
      destruct (handle CurrentTimestamp w2) as [[now|e] w3]; simpl;
        [|now apply Blocks_rejected, Stages_clock_rejected].
      destruct (handle (Save (pendingImport (filmlist_resource fl) now)) w3)
        as [[inserted|e] w4] eqn:Hsave;
        unfold pendingImport in Hsave; rewrite Hsave; simpl.
      * destruct (handle (Enqueue {| filmlistImportId := id inserted |}) w4)
          as [[[]|e] w5]; simpl.
        -- apply (Htoken [_; _; _; _; _] w5). now apply Stages_enqueued.
        -- now apply Blocks_rejected, Stages_enqueue_rejected.
      * now apply Blocks_rejected, Stages_save_rejected.
    + apply (Htoken [] w). now apply Stages_too_old.
Qed.

(** Go through the runs, filmlist by filmlist and stage by stage. *)
Ltac by_blocks H :=
  let Hs := fresh "Hs" in
  induction H as [ | ? ? ? ? Hs | ? ? ? ? Hs | ? ? ? Hs | ? ? ? ? ? Hs ? ?];
  try (inversion Hs; subst; clear Hs); cbn [app].




Lemma Blocks_counted minimumTimestamp filmlists o
  (tr : list (Event Resource FilmlistMetadata Exn)) :
  Blocks resource_id resource_timestamp minimumTimestamp filmlists o tr ->
  List.length (filter isCounted tr) = List.length (filter isEnqueued tr).
Proof. intro H. by_blocks H; simpl; lia. Qed.

(** X8: in a run of [enqueueMissingFilmlists] the counter of enqueued
    filmlists is incremented once for every enqueue call that returned,
    and not for one that was rejected. *)
Theorem enqueueMissingFilmlists_counts_enqueued
  (filmlists : list (Filmlist Resource)) (minimumTimestamp : Z) (w : World) :
  let r := run handle
             (enqueueMissingFilmlists resource_id resource_timestamp
                filmlists minimumTimestamp) w in
  List.length (filter isCounted (trace r))
  = List.length
      (filter isEnqueued (trace r)).
Proof.
  intro r.
  apply Blocks_counted with minimumTimestamp filmlists (outcome r).
  apply Blocks_run.
Qed.

Lemma Blocks_queried minimumTimestamp filmlists o
  (tr : list (Event Resource FilmlistMetadata Exn)) :
  Blocks resource_id resource_timestamp minimumTimestamp filmlists o tr ->
  exists rest,
    map (fun fl => resource_id (filmlist_resource fl))
        (filter (newEnough resource_timestamp minimumTimestamp) filmlists)
    = (queriedIds tr ++ rest)%list.
Proof.
  intro H. by_blocks H; cbn [filter queriedIds requestOf];
    repeat match goal with
           | Hn : newEnough _ _ _ = _ |- _ => rewrite Hn; clear Hn
           end;
    cbn [map];
    try match goal with
        | IH : exists _, _ |- _ => destruct IH as [? IH]; rewrite IH
        end;
    eexists; reflexivity.
Qed.

(** X9: [enqueueMissingFilmlists] asks the repository about the filmlists
    that pass the timestamp filter, in input order and without leaving one
    out, up to the point where it stops; it asks about no filmlist that is
    older than [minimumTimestamp]. *)
Theorem enqueueMissingFilmlists_queries_in_order
  (filmlists : list (Filmlist Resource)) (minimumTimestamp : Z) (w : World) :
  let r := run handle
             (enqueueMissingFilmlists resource_id resource_timestamp
                filmlists minimumTimestamp) w in
  exists rest,
    map (fun fl => resource_id (filmlist_resource fl))
        (filter (newEnough resource_timestamp minimumTimestamp) filmlists)
    = (queriedIds (trace r) ++ rest)%list.
Proof.
  intro r.
  apply Blocks_queried with (outcome r).
  apply Blocks_run.
Qed.

Lemma Blocks_undisturbed minimumTimestamp filmlists o
  (tr : list (Event Resource FilmlistMetadata Exn)) :
  Blocks resource_id resource_timestamp minimumTimestamp filmlists o tr ->
  undisturbed tr = true ->
  o = Ok tt
  /\ queriedIds tr
     = map (fun fl => resource_id (filmlist_resource fl))
           (filter (newEnough resource_timestamp minimumTimestamp) filmlists).
Proof.
  unfold undisturbed.
  intro H. by_blocks H;
    cbn [forallb isRejected isCancelObserved negb andb];
    intro Hq; try discriminate Hq;
    cbn [filter queriedIds requestOf];
    repeat match goal with
           | Hn : newEnough _ _ _ = _ |- _ => rewrite Hn; clear Hn
           end;
    cbn [map];
    try match goal with
        | IH : _ = true -> _ /\ _ |- _ => destruct (IH Hq) as [-> ->]; clear IH
        end;
    auto.
Qed.

(** X10: when no call is rejected and the cancellation token is never
    seen set, [enqueueMissingFilmlists] completes and has asked the
    repository about every filmlist that passes the timestamp filter, once
    each, in input order. *)
Theorem enqueueMissingFilmlists_undisturbed
  (filmlists : list (Filmlist Resource)) (minimumTimestamp : Z) (w : World) :
  let r := run handle
             (enqueueMissingFilmlists resource_id resource_timestamp
                filmlists minimumTimestamp) w in
  undisturbed (trace r) = true ->
  outcome r = Ok tt
  /\ queriedIds (trace r)
     = map (fun fl => resource_id (filmlist_resource fl))
           (filter (newEnough resource_timestamp minimumTimestamp) filmlists).
Proof.
  intro r.
  apply Blocks_undisturbed. apply Blocks_run.
Qed.

Lemma Blocks_save_then_enqueue minimumTimestamp filmlists o
  (tr : list (Event Resource FilmlistMetadata Exn)) :
  Blocks resource_id resource_timestamp minimumTimestamp filmlists o tr ->
  forall pre filmlistImport inserted post,
    tr = (pre ++ Returned (Save filmlistImport) (AImport inserted) :: post)%list ->
    exists ev post',
      post = ev :: post'
      /\ requestOf ev = Some (Enqueue {| filmlistImportId := id inserted |}).
Proof.
  intro H. by_blocks H; intros pre filmlistImport ins post Htr;
    find_in Htr; eauto; injection Hev as -> ->; eauto.
Qed.

(** X11: in a run of [enqueueMissingFilmlists], the call that follows a
    save that returned is the enqueue call for the id of the saved
    import: no saved import is left without an attempt to enqueue it. *)
Theorem enqueueMissingFilmlists_save_then_enqueue
  (filmlists : list (Filmlist Resource)) (minimumTimestamp : Z) (w : World)
  pre filmlistImport inserted post :
  let r := run handle
             (enqueueMissingFilmlists resource_id resource_timestamp
                filmlists minimumTimestamp) w in
  trace r
    = (pre ++ Returned (Save filmlistImport) (AImport inserted) :: post)%list ->
  exists ev post',
    post = ev :: post'
    /\ requestOf ev = Some (Enqueue {| filmlistImportId := id inserted |}).
Proof.
  intro r.
  apply Blocks_save_then_enqueue
    with minimumTimestamp filmlists (outcome r).
  apply Blocks_run.
Qed.

Lemma Subsequence_nil_l {A : Type} (l : list A) : Subsequence [] l.
Proof. induction l; constructor; assumption. Qed.

Lemma Blocks_saved minimumTimestamp filmlists o
  (tr : list (Event Resource FilmlistMetadata Exn)) :
  Blocks resource_id resource_timestamp minimumTimestamp filmlists o tr ->
  Subsequence (savedResources tr)
    (map (@filmlist_resource Resource)
         (filter (newEnough resource_timestamp minimumTimestamp) filmlists)).
Proof.
  intro H. by_blocks H; cbn [filter savedResources];
    repeat match goal with
           | Hn : newEnough _ _ _ = _ |- _ => rewrite Hn; clear Hn
           end;
    cbn [map pendingImport resource];
    repeat first [ assumption
                 | apply Subsequence_nil_l
                 | apply Subsequence_take
                 | apply Subsequence_skip ].
Qed.

(** X12: the imports that a run of [enqueueMissingFilmlists] saves are
    for resources of the given filmlists that pass the timestamp filter,
    in input order, each filmlist at most once. *)
Theorem enqueueMissingFilmlists_saves_in_order
  (filmlists : list (Filmlist Resource)) (minimumTimestamp : Z) (w : World) :
  let r := run handle
             (enqueueMissingFilmlists resource_id resource_timestamp
                filmlists minimumTimestamp) w in
  Subsequence (savedResources (trace r))
    (map (@filmlist_resource Resource)
         (filter (newEnough resource_timestamp minimumTimestamp) filmlists)).
Proof.
  intro r.
  apply Blocks_saved with (outcome r). apply Blocks_run.
Qed.

Lemma Blocks_metric minimumTimestamp filmlists o
  (tr : list (Event Resource FilmlistMetadata Exn)) :
  Blocks resource_id resource_timestamp minimumTimestamp filmlists o tr ->
  forall v, postIncrement v = JsNaN ->
    countAfter v tr = if existsb isEnqueued tr then JsNaN else v.
Proof.
  intro H. by_blocks H; intros v Hv;
    cbn [countAfter existsb isEnqueued orb]; auto;
    rewrite Hv;
    repeat match goal with
           | IH : forall v, _ -> countAfter v _ = _ |- _ =>
               rewrite IH by reflexivity; clear IH
           end;
    repeat match goal with
           | |- context [existsb isEnqueued ?l] => destruct (existsb isEnqueued l)
           end;
    reflexivity.
Qed.

(** X13: the counter behind the [enqueuedFilmlistsCount] metric is never
    assigned before it is incremented.  After a run of
    [enqueueMissingFilmlists] on a freshly constructed module the metric
    is undefined when nothing was enqueued and NaN when something was;
    it is never the number of enqueued filmlists. *)
Theorem enqueuedFilmlistsCount_not_a_count
  (filmlists : list (Filmlist Resource)) (minimumTimestamp : Z) (w : World) :
  let r := run handle
             (enqueueMissingFilmlists resource_id resource_timestamp
                filmlists minimumTimestamp) w in
  metricValue (trace r)
  = if existsb isEnqueued (trace r) then JsNaN else JsUndefined.
Proof.
  intro r.
  unfold metricValue.
  apply Blocks_metric with minimumTimestamp filmlists (outcome r);
    [apply Blocks_run | reflexivity].
Qed.

Lemma Blocks_justified minimumTimestamp filmlists o
  (tr : list (Event Resource FilmlistMetadata Exn)) :
  Blocks resource_id resource_timestamp minimumTimestamp filmlists o tr ->
  enqueuesJustified resource_id resource_timestamp filmlists
    minimumTimestamp tr.
Proof.
  intro H. by_blocks H;
    repeat match goal with
           | Hn : newEnough _ _ _ = true |- _ =>
               unfold newEnough in Hn; apply Z.leb_le in Hn
           end;
    try (apply justified_enqueue; [now left | assumption | reflexivity |]);
    repeat (apply justified_skip; [discriminate|]);
    first [ apply justified_nil | now apply justified_more ].
Qed.

(** X5: [checkLatest] enqueues from the provider's latest filmlists only.
    Every enqueue call of its run comes right after the repository
    answered that it does not have the resource of one of these
    filmlists, whose timestamp is not negative, and the pending import of
    that resource was saved; the item carries the saved import's id. *)
Theorem checkLatest_enqueues_latest (w w1 w2 : World)
  (latest : list (Filmlist Resource)) :
  handle (LogVerbose "checking for new current-filmlist") w = (Ok tt, w1) ->
  handle GetLatest w1 = (Ok latest, w2) ->
  enqueuesJustified resource_id resource_timestamp latest 0
    (trace (run handle (checkLatest resource_id resource_timestamp) w)).
Proof.
  intros Hlog Hget. unfold checkLatest.
  simpl. rewrite Hlog. simpl. rewrite Hget. simpl.
  do 2 (apply justified_skip; [discriminate|]).
  apply Blocks_justified
    with (outcome (run handle
                     (enqueueMissingFilmlists resource_id resource_timestamp
                        latest 0) w2)).
  apply Blocks_run.
Qed.

(** The range of days in milliseconds is exact when it is a safe integer. *)
Lemma MAX_AGE_MILLISECONDS_exact (archiveRange : Z) :
  Binary64.isSafeInteger (archiveRange * 24 * 60 * 60 * 1000) ->
  MAX_AGE_MILLISECONDS archiveRange = (archiveRange * 24 * 60 * 60 * 1000)%Z.
Proof.
  intro H. unfold MAX_AGE_MILLISECONDS, MAX_AGE_DAYS.
  assert (H24 : Binary64.isSafeInteger (archiveRange * 24))
    by (unfold Binary64.isSafeInteger in *; lia).
  assert (H60 : Binary64.isSafeInteger (archiveRange * 24 * 60))
    by (unfold Binary64.isSafeInteger in *; lia).
  assert (H3600 : Binary64.isSafeInteger (archiveRange * 24 * 60 * 60))
    by (unfold Binary64.isSafeInteger in *; lia).
  rewrite (Binary64Facts.mul_exact _ _ H24).
  rewrite (Binary64Facts.mul_exact _ _ H60).
  rewrite (Binary64Facts.mul_exact _ _ H3600).
  now rewrite (Binary64Facts.mul_exact _ _ H).
Qed.

(** X6: [checkArchive] enqueues no filmlist that is older than
    [archiveRange] days at the clock reading the check starts with, as
    long as the numbers are safe integers (the range in milliseconds, the
    reading and their difference).  Every enqueue call of its run is then
    for one of the provider's archive filmlists whose timestamp is at
    least that reading less [archiveRange * 24 * 60 * 60 * 1000], after
    the repository answered that it does not have the resource and the
    pending import was saved. *)
Theorem checkArchive_respects_archive_range (archiveRange : Z)
  (w w1 w2 w3 : World) (now : Z) (archive : list (Filmlist Resource)) :
  Binary64.isSafeInteger (archiveRange * 24 * 60 * 60 * 1000) ->
  Binary64.isSafeInteger now ->
  Binary64.isSafeInteger (now - archiveRange * 24 * 60 * 60 * 1000) ->
  handle (LogVerbose "checking for new archive-filmlist") w = (Ok tt, w1) ->
  handle CurrentTimestamp w1 = (Ok now, w2) ->
  handle GetArchive w2 = (Ok archive, w3) ->
  enqueuesJustified resource_id resource_timestamp archive
    (now - archiveRange * 24 * 60 * 60 * 1000)
    (trace (run handle
              (checkArchive resource_id resource_timestamp archiveRange) w)).
Proof.
  intros Hrange _ Hdiff Hlog Hnow Hget. unfold checkArchive.
  simpl. rewrite Hlog. simpl. rewrite Hnow. simpl. rewrite Hget. simpl.
  rewrite MAX_AGE_MILLISECONDS_exact by exact Hrange.
  rewrite Binary64Facts.sub_exact by exact Hdiff.
  do 3 (apply justified_skip; [discriminate|]).
  apply Blocks_justified
    with (outcome (run handle
                     (enqueueMissingFilmlists resource_id resource_timestamp
                        archive (now - archiveRange * 24 * 60 * 60 * 1000))
                     w3)).
  apply Blocks_run.
Qed.

(** X4: [check] runs the comparison for the latest filmlists first.  When
    that one rejects, [check] rejects with the same error and does
    nothing more, so the archive is not looked at; when it completes, the
    comparison for the archive runs from the state it left. *)
Theorem check_latest_first
  (latestCheckIntervalMinutes archiveCheckIntervalMinutes archiveRange : Z)
  (w : World) :
  let latestRun :=
    run handle
      (compareTime lastLatestCheck
         (LATEST_CHECK_INTERVAL latestCheckIntervalMinutes)
         (checkLatest resource_id resource_timestamp)) w in
  let checkRun :=
    run handle
      (check resource_id resource_timestamp latestCheckIntervalMinutes
         archiveCheckIntervalMinutes archiveRange) w in
  (forall e, outcome latestRun = Throw e -> checkRun = latestRun)
  /\ (outcome latestRun = Ok tt ->
      let archiveRun :=
        run handle
          (compareTime lastArchiveCheck
             (ARCHIVE_CHECK_INTERVAL archiveCheckIntervalMinutes)
             (checkArchive resource_id resource_timestamp archiveRange))
          (world latestRun) in
      outcome checkRun = outcome archiveRun
      /\ world checkRun = world archiveRun
      /\ trace checkRun = (trace latestRun ++ trace archiveRun)%list).
Proof.
  intros latestRun checkRun. subst checkRun. unfold check.
  rewrite run_bind. fold latestRun. split.
  - intros e He. rewrite He. destruct latestRun as [o w' tr].
    simpl in *. now subst o.
  - intro Hok. rewrite Hok. cbv zeta. simpl. auto.
Qed.

(** X3: a comparison that has run its function and stored the clock
    reading holds the function back.  For safe integers: when the
    repository then answers the stored reading, a second [compareTime]
    for the key calls the function again only if at least [interval]
    milliseconds lie between the two clock readings. *)
Theorem compareTime_throttles (key : Key) (interval : Z)
  (w w1 w2 w3 w4 w5 w6 : World) (lastCheck now1 now2 : Z) :
  Binary64.isSafeInteger interval ->
  Binary64.isSafeInteger lastCheck ->
  Binary64.isSafeInteger now1 ->
  Binary64.isSafeInteger now2 ->
  handle (KvGet KEY_VALUE_SCOPE key 0) w = (Ok lastCheck, w1) ->
  handle CurrentTimestamp w1 = (Ok now1, w2) ->
  (interval <= now1 - lastCheck)%Z ->
  handle CallFunc w2 = (Ok tt, w3) ->
  handle (KvSet KEY_VALUE_SCOPE key now1) w3 = (Ok tt, w4) ->
  handle (KvGet KEY_VALUE_SCOPE key 0) w4 = (Ok now1, w5) ->
  handle CurrentTimestamp w5 = (Ok now2, w6) ->
  List.length
    (filter isCallFunc
       (trace (run handle
                 (bind (compareTime key interval (call CallFunc))
                       (fun _ => compareTime key interval (call CallFunc)))
                 w)))
  = if (interval <=? now2 - now1)%Z then 2 else 1.
Proof.
  intros Hinterval _ _ _ Hget1 Hnow1 Hle Hfunc Hset Hget2 Hnow2.
  rewrite run_bind.
  rewrite (@run_compareTime Resource FilmlistMetadata Exn World handle
             key interval w w1 w2 lastCheck now1 Hget1 Hnow1).
  unfold Binary64.sub. rewrite (Binary64Facts.leb_round64 _ Hinterval).
  apply Z.leb_le in Hle. rewrite Hle, Hfunc, Hset. cbv zeta.
  cbn [outcome world trace].
  rewrite (@run_compareTime Resource FilmlistMetadata Exn World handle
             key interval w4 w5 w6 now1 now2 Hget2 Hnow2).
  unfold Binary64.sub. rewrite (Binary64Facts.leb_round64 _ Hinterval).
  destruct (interval <=? now2 - now1)%Z; [|reflexivity].
  destruct (handle CallFunc w6) as [[[]|e] w7]; [|reflexivity].
  destruct (handle (KvSet KEY_VALUE_SCOPE key now2) w7) as [[[]|e] w8];
    reflexivity.
Qed.

(** X14: [compareTime] around any function, for an interval, a stored
    timestamp and a clock reading that are safe integers.  When the
    interval has elapsed, the function runs from the state the clock
    reading left; if it rejects, [compareTime] rejects with its error and
    makes no further call; if it completes, exactly one call follows, the
    write of the clock reading that was taken before the function ran.
    When the interval has not elapsed nothing of the function runs. *)
Theorem compareTime_around_function (key : Key) (interval : Z)
  (func : Prog Resource FilmlistMetadata unit) (w w1 w2 : World)
  (lastCheck now : Z) :
  Binary64.isSafeInteger interval ->
  Binary64.isSafeInteger lastCheck ->
  Binary64.isSafeInteger now ->
  handle (KvGet KEY_VALUE_SCOPE key 0) w = (Ok lastCheck, w1) ->
  handle CurrentTimestamp w1 = (Ok now, w2) ->
  let read := [Returned (KvGet KEY_VALUE_SCOPE key 0) (ANumber lastCheck);
               Returned CurrentTimestamp (ANumber now)] in
  let inner := run handle func w2 in
  let r := run handle (compareTime key interval func) w in
  ((interval <= now - lastCheck)%Z ->
   (forall e, outcome inner = Throw e ->
      outcome r = Throw e /\ world r = world inner
      /\ trace r = (read ++ trace inner)%list)
   /\ (outcome inner = Ok tt ->
       exists ev,
         trace r = (read ++ trace inner ++ [ev])%list
         /\ requestOf ev = Some (KvSet KEY_VALUE_SCOPE key now)))
  /\ ((now - lastCheck < interval)%Z ->
      outcome r = Ok tt /\ world r = w2 /\ trace r = read).
Proof.
  intros Hinterval _ _ Hget Hnow read inner r. subst r. unfold compareTime.
  simpl. rewrite Hget. simpl. rewrite Hnow. simpl.
  unfold Binary64.sub. rewrite (Binary64Facts.leb_round64 _ Hinterval).
  destruct (Z.leb_spec interval (now - lastCheck)) as [Hle|Hlt]; simpl.
  - split; [intros _ | lia].
    rewrite run_bind. fold inner. split.
    + intros e He. rewrite He. simpl. auto.
    + intro Hok. rewrite Hok. cbv zeta. simpl.
      destruct (handle (KvSet KEY_VALUE_SCOPE key now) (world inner))
        as [[[]|e] w4]; simpl; eexists; split; reflexivity.
  - split; [lia | auto].
Qed.

Section Repository.
(** A repository that remembers: [Knows x w] says that in the state [w]
    the repository is known to hold an import for the resource id [x]. *)
Variable Knows : string -> World -> Prop.
Hypothesis saved_known :
  forall filmlistImport w inserted w',
    handle (Save filmlistImport) w = (Ok inserted, w') ->
    Knows (resource_id (resource filmlistImport)) w'.
Hypothesis known_kept :
  forall (r : Request Resource FilmlistMetadata) w o w' x,
    Knows x w -> handle r w = (o, w') -> Knows x w'.
Hypothesis known_found :
  forall x w b w',
    Knows x w -> handle (HasResource x) w = (Ok b, w') -> b = true.

Lemma saved_ids_fresh (minimumTimestamp : Z)
  (filmlists : list (Filmlist Resource)) :
  forall w K,
    Forall (fun x => Knows x w) K ->
    let ids :=
      map resource_id
          (savedResources
             (trace (run handle
                       (enqueueMissingFilmlists resource_id resource_timestamp
                          filmlists minimumTimestamp) w))) in
    NoDup ids /\ forall x, In x ids -> ~ In x K.
Proof.
  assert (Hnone : forall K : list string,
             NoDup (@nil string) /\ forall x, In x (@nil string) -> ~ In x K)
    by (intro K; split; [constructor | intros x []]).
  assert (Hkept : forall (r : Request Resource FilmlistMetadata) w o w' K,
             handle r w = (o, w') ->
             Forall (fun x => Knows x w) K -> Forall (fun x => Knows x w') K).
  { intros r w o w' K Hr HK. apply Forall_forall. intros x Hx.
    apply known_kept with r w o; [|assumption].
    now apply (proj1 (Forall_forall _ _) HK). }
  induction filmlists as [|fl fls IH]; intros w K HK; [apply Hnone|].
  (* After the stages, the token is read and the run ends or goes on. *)
  assert (Htoken : forall w' K',
    Forall (fun x => Knows x w') K' ->
    let ids :=
      map resource_id
          (savedResources
             (trace (run handle
                (bind (bind (call CancellationIsSet)
                            (fun isSet : bool => Ret (negb isSet)))
                      (fun more : bool =>
                         if more
                         then enqueueMissingFilmlists resource_id
                                resource_timestamp fls minimumTimestamp
                         else Ret tt)) w'))) in
    NoDup ids /\ forall x, In x ids -> ~ In x K').
  { intros w' K' HK'. simpl.
    destruct (handle CancellationIsSet w') as [[isSet|e] w1] eqn:H0; simpl;
      [|apply Hnone].
    destruct isSet; simpl; [apply Hnone|].
    apply IH. exact (Hkept _ _ _ _ _ H0 HK'). }
  unfold enqueueMissingFilmlists, forEach, filter_, while_ in *.
  simpl.
  destruct (minimumTimestamp <=? resource_timestamp (filmlist_resource fl))%Z;
    simpl; [|now apply Htoken].
  destruct (handle (HasResource (resource_id (filmlist_resource fl))) w)
    as [[has|e] w2] eqn:H1; simpl; [|apply Hnone].
  pose proof (Hkept _ _ _ _ _ H1 HK) as HK2.
  destruct has; simpl; [now apply Htoken|].
  assert (Hfresh : ~ In (resource_id (filmlist_resource fl)) K).
  { intro Hin.
    assert (Hk : Knows (resource_id (filmlist_resource fl)) w)
      by now apply (proj1 (Forall_forall _ _) HK).
    now pose proof (known_found Hk H1). }
  destruct (handle CurrentTimestamp w2) as [[now|e] w3] eqn:H2; simpl;
    [|apply Hnone].
  pose proof (Hkept _ _ _ _ _ H2 HK2) as HK3.
  destruct (handle (Save (pendingImport (filmlist_resource fl) now)) w3)
    as [[inserted|e] w4] eqn:Hsave.
  - pose proof (saved_known Hsave) as Hknown. simpl in Hknown.
    pose proof (Hkept _ _ _ _ _ Hsave HK3) as HK4.
    unfold pendingImport in Hsave; rewrite Hsave; simpl.
    destruct (handle (Enqueue {| filmlistImportId := id inserted |}) w4)
      as [[[]|e] w5] eqn:H4; simpl.
    + assert (HK5 : Forall (fun x => Knows x w5)
                      (resource_id (filmlist_resource fl) :: K)).
      { constructor.
        - exact (known_kept Hknown H4).
        - exact (Hkept _ _ _ _ _ H4 HK4). }
      destruct (Htoken w5 _ HK5) as [Hnd Hdisj]. split.
      * constructor; [|exact Hnd].
        intro Hin. apply (Hdisj _ Hin). now left.
      * intros x [<-|Hin]; [exact Hfresh|].
        intro HxK. apply (Hdisj _ Hin). now right.
    + split.
      * constructor; [intros [] | constructor].
      * intros x [<-|[]]. exact Hfresh.
  - unfold pendingImport in Hsave; rewrite Hsave; simpl. apply Hnone.
Qed.

(** X15: with a repository that remembers what it saved and answers
    [hasResource] accordingly, a run of [enqueueMissingFilmlists] saves at
    most one import per resource id, even when the given filmlists name a
    resource more than once. *)
Theorem enqueueMissingFilmlists_saves_each_resource_once
  (filmlists : list (Filmlist Resource)) (minimumTimestamp : Z) (w : World) :
  NoDup (map resource_id
             (savedResources
                (trace (run handle
                          (enqueueMissingFilmlists resource_id
                             resource_timestamp filmlists minimumTimestamp)
                          w)))).
Proof.
  exact (proj1 (@saved_ids_fresh minimumTimestamp filmlists w []
                  (Forall_nil _))).
Qed.
End Repository.

End Collaborators.

Import InMemory InMemoryProvider.


Lemma enqueueMissingFilmlists_undisturbed_witness :
  let r := runIn (enqueueMissingFilmlists resource_id resource_timestamp
                    [mkFilmlist ("a", 5%Z); mkFilmlist ("b", 50%Z)] 10)
                 emptyWorld in
  undisturbed (trace r) = true
  /\ outcome r = Ok tt
  /\ queriedIds (trace r) = ["b"].
Proof.
  intro r. split; [reflexivity|].
  exact (@enqueueMissingFilmlists_undisturbed
           Resource resource_id resource_timestamp unit string World handle
           [mkFilmlist ("a", 5%Z); mkFilmlist ("b", 50%Z)] 10 emptyWorld
           eq_refl).
Defined.

Lemma enqueueMissingFilmlists_save_then_enqueue_witness :
  exists ev post',
    ([Returned (Enqueue (mkQueueItem "import:a")) AUnit; Counted;
      Returned CancellationIsSet (ABool false)]
     : list (Event Resource unit string)) = ev :: post'
    /\ requestOf ev
       = Some (Enqueue {| filmlistImportId := "import:a" |}).
Proof.
  apply (@enqueueMissingFilmlists_save_then_enqueue
           Resource resource_id resource_timestamp unit string World handle
           [mkFilmlist ("a", 50%Z)] 10 emptyWorld
           [Returned (HasResource "a") (ABool false);
            Returned CurrentTimestamp (ANumber 1000)]
           (pendingImport ("a", 50%Z) 1000)
           (mkSaved "import:a" (pendingImport ("a", 50%Z) 1000))
           [Returned (Enqueue (mkQueueItem "import:a")) AUnit; Counted;
            Returned CancellationIsSet (ABool false)]).
  reflexivity.
Defined.

Lemma checkLatest_enqueues_latest_witness :
  let pw := providing [mkFilmlist ("a", 50%Z)] [] in
  handleWithProvider (LogVerbose "checking for new current-filmlist") pw
    = (Ok tt, pw)
  /\ handleWithProvider GetLatest pw = (Ok [mkFilmlist ("a", 50%Z)], pw)
  /\ enqueuesJustified resource_id resource_timestamp
       [mkFilmlist ("a", 50%Z)] 0
       (trace (run handleWithProvider
                 (checkLatest resource_id resource_timestamp) pw)).
Proof.
  intro pw. split; [reflexivity | split; [reflexivity|]].
  exact (@checkLatest_enqueues_latest
           Resource resource_id resource_timestamp unit string ProviderWorld
           handleWithProvider pw pw pw [mkFilmlist ("a", 50%Z)]
           eq_refl eq_refl).
Defined.

Lemma checkArchive_respects_archive_range_witness :
  let archive := [mkFilmlist ("old", 100%Z); mkFilmlist ("new", 2000%Z)] in
  let pw := providing [] archive in
  handleWithProvider (LogVerbose "checking for new archive-filmlist") pw
    = (Ok tt, pw)
  /\ handleWithProvider CurrentTimestamp pw = (Ok 1000%Z, pw)
  /\ handleWithProvider GetArchive pw = (Ok archive, pw)
  /\ enqueuesJustified resource_id resource_timestamp archive
       (1000 - 0 * 24 * 60 * 60 * 1000)
       (trace (run handleWithProvider
                 (checkArchive resource_id resource_timestamp 0) pw)).
Proof.
  intros archive pw.
  split; [reflexivity | split; [reflexivity | split; [reflexivity|]]].
  apply (@checkArchive_respects_archive_range
           Resource resource_id resource_timestamp unit string ProviderWorld
           handleWithProvider 0 pw pw pw pw 1000 archive);
    try (apply Binary64Facts.isSafeInteger_computed); reflexivity.
Defined.

(** With an archive range of zero days and the clock at 1000, of an old
    and a new archive filmlist only the new one is enqueued. *)
Example checkArchive_in_memory :
  map filmlistImportId
      (queue (base (world (run handleWithProvider
                             (checkArchive resource_id resource_timestamp 0)
                             (providing []
                                [mkFilmlist ("old", 100%Z);
                                 mkFilmlist ("new", 2000%Z)])))))
  = ["import:new"].
Proof. reflexivity. Qed.

Lemma check_latest_first_witness :
  outcome (run handleWithProvider
             (compareTime lastLatestCheck (LATEST_CHECK_INTERVAL 0)
                (checkLatest resource_id resource_timestamp)) outOfOrder)
    = Throw "provider unavailable"
  /\ run handleWithProvider
       (check resource_id resource_timestamp 0 0 0) outOfOrder
     = run handleWithProvider
         (compareTime lastLatestCheck (LATEST_CHECK_INTERVAL 0)
            (checkLatest resource_id resource_timestamp)) outOfOrder.
Proof.
  split; [reflexivity|].
  exact (proj1 (@check_latest_first
                  Resource resource_id resource_timestamp unit string
                  ProviderWorld handleWithProvider 0 0 0 outOfOrder)
               "provider unavailable" eq_refl).
Defined.

Lemma compareTime_throttles_witness :
  let stored :=
    snd (handle (KvSet KEY_VALUE_SCOPE lastLatestCheck 1000) emptyWorld) in
  handle (KvGet KEY_VALUE_SCOPE lastLatestCheck 0) stored = (Ok 1000%Z, stored)
  /\ List.length
       (filter isCallFunc
          (trace (runIn (bind (compareTime lastLatestCheck 500 guarded)
                              (fun _ => compareTime lastLatestCheck 500 guarded))
                        emptyWorld)))
     = 1.
Proof.
  intro stored. split; [reflexivity|].
  apply (@compareTime_throttles Resource unit string World handle
           lastLatestCheck 500
           emptyWorld emptyWorld emptyWorld emptyWorld stored stored stored
           0 1000 1000);
    try (apply Binary64Facts.isSafeInteger_computed); try reflexivity.
  lia.
Defined.

Lemma compareTime_around_function_witness :
  let func := enqueueMissingFilmlists resource_id resource_timestamp
                [mkFilmlist ("a", 50%Z)] 10 in
  (500 <= 1000 - 0)%Z
  /\ outcome (runIn func emptyWorld) = Ok tt
  /\ exists ev,
       trace (runIn (compareTime lastLatestCheck 500 func) emptyWorld)
       = ([Returned (KvGet KEY_VALUE_SCOPE lastLatestCheck 0) (ANumber 0);
           Returned CurrentTimestamp (ANumber 1000)]
          ++ trace (runIn func emptyWorld) ++ [ev])%list
       /\ requestOf ev = Some (KvSet KEY_VALUE_SCOPE lastLatestCheck 1000).
Proof.
  intro func.
  assert (Hle : (500 <= 1000 - 0)%Z) by lia.
  split; [exact Hle | split; [reflexivity|]].
  exact (proj2 (proj1 (@compareTime_around_function
                         Resource unit string World handle
                         lastLatestCheck 500 func
                         emptyWorld emptyWorld emptyWorld 0 1000
                         (Binary64Facts.isSafeInteger_computed 500 eq_refl)
                         (Binary64Facts.isSafeInteger_computed 0 eq_refl)
                         (Binary64Facts.isSafeInteger_computed 1000 eq_refl)
                         eq_refl eq_refl) Hle) eq_refl).
Defined.

(** The in-memory repository remembers what it saved. *)
Lemma inMemory_saved_known filmlistImport w inserted w' :
  handle (Save filmlistImport) w = (Ok inserted, w') ->
  hasResource (resource_id (resource filmlistImport)) w' = true.
Proof.
  intros [= <- <-]. unfold hasResource. cbn [imports].
  rewrite existsb_app. cbn [existsb saved resource].
  now rewrite String.eqb_refl, orb_true_r.
Qed.

Lemma inMemory_known_kept (r : Req) w o w' x :
  hasResource x w = true -> handle r w = (o, w') -> hasResource x w' = true.
Proof.
  unfold hasResource. intro H.
  destruct r; cbn [handle]; intros [= <- <-]; cbn [imports]; try exact H.
  rewrite existsb_app. apply orb_true_iff. left. exact H.
Qed.

Lemma inMemory_known_found x w b w' :
  hasResource x w = true ->
  handle (HasResource x) w = (Ok b, w') -> b = true.
Proof. intros H [= <- <-]. exact H. Qed.

Lemma enqueueMissingFilmlists_saves_each_resource_once_witness :
  NoDup (map resource_id
             (savedResources
                (trace (runIn (enqueueMissingFilmlists resource_id
                                 resource_timestamp
                                 [mkFilmlist ("b", 50%Z);
                                  mkFilmlist ("b", 60%Z);
                                  mkFilmlist ("c", 70%Z)] 10)
                              emptyWorld)))).
Proof.
  exact (@enqueueMissingFilmlists_saves_each_resource_once
           Resource resource_id resource_timestamp unit string World handle
           (fun x w => hasResource x w = true)
           inMemory_saved_known inMemory_known_kept inMemory_known_found
           [mkFilmlist ("b", 50%Z); mkFilmlist ("b", 60%Z);
            mkFilmlist ("c", 70%Z)] 10 emptyWorld).
Defined.

End FilmlistExtra.
